(** * Lazy Line Painter: the animation timeline of the stroke painter

    A shallow embedding of the jQuery plugin [lazylinepainter]: the public
    methods [paint], [pauseResume] and [erase], and the private frame
    callbacks [adjustStartTime] and [draw].

    Conventions of the embedding.
    - JavaScript numbers (durations, timestamps, lengths) are exact
      rationals [Q]; equalities between computed numbers are stated with
      [==] ([Qeq]).
    - The options object [data] cached on the element is ONE mutable object
      shared by the public methods and by every frame closure.  It is the
      [store] of the [world]; closures are the tags [CbDraw] and
      [CbAdjustStartTime], which act on that store when they fire.
    - The browser is explicit state: the queue of requested animation
      frames, the pending timeouts, the children of the svg element and the
      number of times the user's callbacks ran. *)

From Stdlib Require Import QArith Qabs Lqa Lia List Bool Arith String Ascii.
From Stdlib Require Import Floats.
Import ListNotations.

Local Open Scope Q_scope.

(** ** JavaScript values held by [startTime] and [elapsedTime] *)

Module JS.

Inductive value : Type :=
| undefined
| null
| NaN
| num (q : Q).

(** [timestamp - v]: [ToNumber null] is 0, [ToNumber undefined] is NaN. *)
Definition sub (timestamp : Q) (v : value) : value :=
  match v with
  | undefined => NaN
  | null => num (timestamp - 0)
  | NaN => NaN
  | num q => num (timestamp - q)
  end.

(** [!v] *)
Definition not (v : value) : bool :=
  match v with
  | undefined => true
  | null => true
  | NaN => true
  | num q => Qeq_bool q 0
  end.

End JS.

(** [x < y] on numbers, as a boolean. *)
Definition Qltb (x y : Q) : bool := negb (Qle_bool y x).

(** ** Data model *)

(** One entry of [options.svgData] (the [strokepath] array).  [sp_length]
    is what [path.getTotalLength()] returns for the element built from the
    entry's path string. *)
Record strokepath : Type := mkStrokepath {
  sp_duration : Q;
  sp_reverse : bool;
  sp_length : Q
}.

(** One entry of [data.paths], together with the style of the path element
    it refers to. *)
Record pathObj : Type := mkPathObj {
  duration : Q;
  drawStartTime : Q;
  length : Q;
  strokeDasharray : Q * Q;
  strokeDashoffset : Q
}.

Definition handle : Type := nat.

(** The options object cached under [dataKey]. *)
Record data : Type := mkData {
  svgData : list strokepath;
  drawSequential : bool;
  speedMultiplier : Q;
  reverse : bool;
  delay : option Q;
  onStart : bool;          (* [onStart !== null] *)
  onComplete : bool;       (* [onComplete !== null] *)
  paths : list pathObj;
  longestDuration : Q;
  playhead : Q;
  totalDuration : Q;
  rAF : option handle;
  startTime : JS.value;
  elapsedTime : JS.value;
  paused : bool
}.

(** The closures handed to [requestAnimationFrame]. *)
Inductive callback : Type :=
| CbDraw
| CbAdjustStartTime.

Record world : Type := mkWorld {
  store : option data;                 (* [$this.data(dataKey)] *)
  frames : list (handle * callback);   (* requested, not yet fired *)
  nextHandle : handle;
  timeouts : list Q;                   (* pending [setTimeout(init, delay)] *)
  svgChildren : nat;                   (* path elements inside [data.svg] *)
  onStartCalls : nat;
  onCompleteCalls : nat
}.

Inductive error : Type :=
| TypeError.        (* property access on [undefined] *)

Inductive result (A : Type) : Type :=
| Ok (a : A)
| Throw (e : error).
Arguments Ok {A} a.
Arguments Throw {A} e.

(** Field updates of the shared objects. *)
Definition set_schedule (ps : list pathObj) (longest head total : Q) (d : data) : data :=
  mkData (svgData d) (drawSequential d) (speedMultiplier d) (reverse d) (delay d)
         (onStart d) (onComplete d) ps longest head total
         (rAF d) (startTime d) (elapsedTime d) (paused d).

Definition set_paths (ps : list pathObj) (d : data) : data :=
  set_schedule ps (longestDuration d) (playhead d) (totalDuration d) d.

Definition set_rAF (h : option handle) (d : data) : data :=
  mkData (svgData d) (drawSequential d) (speedMultiplier d) (reverse d) (delay d)
         (onStart d) (onComplete d) (paths d) (longestDuration d) (playhead d)
         (totalDuration d) h (startTime d) (elapsedTime d) (paused d).

Definition set_startTime (v : JS.value) (d : data) : data :=
  mkData (svgData d) (drawSequential d) (speedMultiplier d) (reverse d) (delay d)
         (onStart d) (onComplete d) (paths d) (longestDuration d) (playhead d)
         (totalDuration d) (rAF d) v (elapsedTime d) (paused d).

Definition set_elapsedTime (v : JS.value) (d : data) : data :=
  mkData (svgData d) (drawSequential d) (speedMultiplier d) (reverse d) (delay d)
         (onStart d) (onComplete d) (paths d) (longestDuration d) (playhead d)
         (totalDuration d) (rAF d) (startTime d) v (paused d).

Definition set_paused (b : bool) (d : data) : data :=
  mkData (svgData d) (drawSequential d) (speedMultiplier d) (reverse d) (delay d)
         (onStart d) (onComplete d) (paths d) (longestDuration d) (playhead d)
         (totalDuration d) (rAF d) (startTime d) (elapsedTime d) b.

Definition set_store (d : data) (w : world) : world :=
  mkWorld (Some d) (frames w) (nextHandle w) (timeouts w) (svgChildren w)
          (onStartCalls w) (onCompleteCalls w).

Definition set_strokeDashoffset (o : Q) (p : pathObj) : pathObj :=
  mkPathObj (duration p) (drawStartTime p) (length p) (strokeDasharray p) o.

(** ** The browser *)

(** [requestAnimationFrame(cb)]: queue the callback, return its handle. *)
Definition requestAnimationFrame (cb : callback) (w : world) : handle * world :=
  (nextHandle w,
   mkWorld (store w) (frames w ++ [(nextHandle w, cb)]) (S (nextHandle w))
           (timeouts w) (svgChildren w) (onStartCalls w) (onCompleteCalls w)).

(** [cancelAnimationFrame(h)]: drop the request with that handle, if it is
    still pending; [undefined] and stale handles cancel nothing. *)
Definition cancelAnimationFrame (h : option handle) (w : world) : world :=
  match h with
  | None => w
  | Some n =>
      mkWorld (store w) (filter (fun e => negb (Nat.eqb (fst e) n)) (frames w))
              (nextHandle w) (timeouts w) (svgChildren w)
              (onStartCalls w) (onCompleteCalls w)
  end.

Definition setTimeout (ms : Q) (w : world) : world :=
  mkWorld (store w) (frames w) (nextHandle w) (timeouts w ++ [ms])
          (svgChildren w) (onStartCalls w) (onCompleteCalls w).

Definition call_onStart (w : world) : world :=
  mkWorld (store w) (frames w) (nextHandle w) (timeouts w) (svgChildren w)
          (S (onStartCalls w)) (onCompleteCalls w).

Definition call_onComplete (w : world) : world :=
  mkWorld (store w) (frames w) (nextHandle w) (timeouts w) (svgChildren w)
          (onStartCalls w) (S (onCompleteCalls w)).

Definition set_svgChildren (n : nat) (w : world) : world :=
  mkWorld (store w) (frames w) (nextHandle w) (timeouts w) n
          (onStartCalls w) (onCompleteCalls w).

(** ** [paint]: building the schedule *)

(** First loop of [init]: [totalDuration += duration * speedMultiplier]. *)
Definition sumDurations (d : data) : Q :=
  fold_left (fun total s => total + sp_duration s * speedMultiplier d) (svgData d) 0.

(** The variables the second loop of [init] updates. *)
Record loopVars : Type := mkLoopVars {
  lv_paths : list pathObj;
  lv_longestDuration : Q;
  lv_playhead : Q;
  lv_totalDuration : Q
}.

(** Body of the second loop of [init], for the entry [s] of [svgData]. *)
Definition initStep (d : data) (v : loopVars) (s : strokepath) : loopVars :=
  let len := sp_length s in
  let dur := sp_duration s * speedMultiplier d in
  let longest :=
    if Qltb (lv_longestDuration v) dur then dur else lv_longestDuration v in
  let total :=
    if reverse d then lv_totalDuration v - dur else lv_totalDuration v in
  let start :=
    if reverse d then total else lv_playhead v in
  mkLoopVars (lv_paths v ++ [mkPathObj dur start len (len, len) len])
             longest (lv_playhead v + dur) total.

Definition initLoop (d : data) : loopVars :=
  fold_left (initStep d) (svgData d) (mkLoopVars [] 0 0 (sumDurations d)).

(** The options object when both loops of [init] have run and
    [data.totalDuration] is assigned. *)
Definition schedule (d : data) : data :=
  let v := initLoop d in
  let total := if drawSequential d then lv_playhead v else lv_longestDuration v in
  set_schedule (lv_paths v) (lv_longestDuration v) (lv_playhead v) total d.

(** The function [init] inside [paint]: the schedule, then the first frame
    request, then [onStart]. *)
Definition init (d : data) (w : world) : world :=
  let w1 := set_svgChildren (svgChildren w + List.length (svgData d)) w in
  let (h, w2) := requestAnimationFrame CbDraw w1 in
  let w3 := set_store (set_rAF (Some h) (schedule d)) w2 in
  if onStart d then call_onStart w3 else w3.

Definition paint (w : world) : result world :=
  match store w with
  | None => Throw TypeError
  | Some d =>
      match delay d with
      | None => Ok (init d w)
      | Some ms => Ok (setTimeout ms w)
      end
  end.

(** A pending timeout of [paint] expires: [init] runs on the shared
    options object as it is at that moment. *)
Definition fireTimeout (w : world) : world :=
  match timeouts w, store w with
  | _ :: rest, Some d =>
      init d (mkWorld (store w) (frames w) (nextHandle w) rest (svgChildren w)
                      (onStartCalls w) (onCompleteCalls w))
  | _, _ => w
  end.

(** ** [pauseResume] and [erase] *)

Definition pauseResume (w : world) : result world :=
  match store w with
  | None => Throw TypeError
  | Some d =>
      if negb (paused d) then
        Ok (cancelAnimationFrame (rAF d) (set_store (set_paused true d) w))
      else
        Ok (snd (requestAnimationFrame CbAdjustStartTime
                   (set_store (set_paused false d) w)))
  end.

Definition erase (w : world) : result world :=
  match store w with
  | None => Throw TypeError
  | Some d =>
      let d1 := set_elapsedTime JS.null (set_startTime JS.null d) in
      Ok (set_svgChildren 0 (cancelAnimationFrame (rAF d1) (set_store d1 w)))
  end.

(** ** The frame callbacks *)

Definition adjustStartTime (timestamp : Q) (d : data) (w : world) : world :=
  let d1 := set_startTime (JS.sub timestamp (elapsedTime d)) d in
  snd (requestAnimationFrame CbDraw (set_store d1 w)).

(** [pathElapsedTime] of the path [p] at the timeline instant [elapsed]. *)
Definition pathElapsedTime (sequential : bool) (elapsed : Q) (p : pathObj) : Q :=
  if sequential then
    let t := elapsed - drawStartTime p in
    if Qltb t 0 then 0 else t
  else elapsed.

(** Body of the loop of [draw] for the path [p]; [rev] is
    [data.reverse || data.svgData[i].reverse]. *)
Definition drawPath (sequential rev : bool) (elapsed : Q) (p : pathObj) : pathObj :=
  let t := pathElapsedTime sequential elapsed p in
  if Qltb t (duration p) && Qltb 0 t then
    let frameLength := t / duration p * length p in
    if rev then set_strokeDashoffset (- length p + frameLength) p
    else set_strokeDashoffset (length p - frameLength) p
  else if Qltb (duration p) t then set_strokeDashoffset 0 p
  else p.

(** The loop of [draw]: [paths[i]] is drawn with the flag of [svgData[i]];
    an index past the end of [svgData] throws in the source and is left
    alone here, [init] builds both lists with the same number of entries. *)
Fixpoint drawPaths (sequential globalRev : bool) (elapsed : Q)
         (ss : list strokepath) (ps : list pathObj) : list pathObj :=
  match ps with
  | [] => []
  | p :: ps' =>
      match ss with
      | [] => p :: ps'
      | s :: ss' =>
          drawPath sequential (globalRev || sp_reverse s) elapsed p
          :: drawPaths sequential globalRev elapsed ss' ps'
      end
  end.

(** The value [data.startTime] holds after the guard [if (!data.startTime)]. *)
Definition startOf (timestamp : Q) (v : JS.value) : Q :=
  match v with
  | JS.num q => if JS.not v then timestamp else q
  | _ => timestamp
  end.

Definition draw (timestamp : Q) (d : data) (w : world) : world :=
  let start := startOf timestamp (startTime d) in
  let elapsed := timestamp - start in
  let d1 := set_elapsedTime (JS.num elapsed) (set_startTime (JS.num start) d) in
  let d2 := set_paths (drawPaths (drawSequential d) (reverse d) elapsed
                                 (svgData d) (paths d)) d1 in
  if Qltb elapsed (totalDuration d) then
    let (h, w1) := requestAnimationFrame CbDraw (set_store d2 w) in
    set_store (set_rAF (Some h) d2) w1
  else
    let w1 := set_store d2 w in
    if onComplete d then call_onComplete w1 else w1.

(** One callback fires; it finds the options object in the store. *)
Definition fire (timestamp : Q) (cb : callback) (w : world) : world :=
  match store w with
  | None => w
  | Some d =>
      match cb with
      | CbDraw => draw timestamp d w
      | CbAdjustStartTime => adjustStartTime timestamp d w
      end
  end.

(** One display frame: every callback requested before the frame runs, in
    request order, with the frame's timestamp; what they request is queued
    for the following frame. *)
Definition frame (timestamp : Q) (w : world) : world :=
  fold_left (fun w' e => fire timestamp (snd e) w') (frames w)
            (mkWorld (store w) [] (nextHandle w) (timeouts w) (svgChildren w)
                     (onStartCalls w) (onCompleteCalls w)).

(** What is visible of a path: with the dash pattern [length length], an
    offset [o] hides [|o|] of the stroke. *)
Definition visibleLength (p : pathObj) : Q :=
  length p - Qabs (strokeDashoffset p).

Definition visibleFraction (p : pathObj) : Q :=
  visibleLength p / length p.

(** The schedule as [draw] reads it: start offset, scaled duration and
    stroke offset of the i-th entry of [data.paths]. *)
Definition startOffset (d : data) (i : nat) : option Q :=
  option_map drawStartTime (nth_error (paths d) i).

Definition durationScaled (d : data) (i : nat) : option Q :=
  option_map duration (nth_error (paths d) i).

(** The scaled duration [init] computes for an entry of [svgData]. *)
Definition scaled (d : data) (s : strokepath) : Q :=
  sp_duration s * speedMultiplier d.

(** The recurrence of the forward schedule, on a list of durations:
    the first offset is [start], each next one adds the previous duration. *)
Fixpoint offsetsFrom (start : Q) (durs : list Q) : list Q :=
  match durs with
  | [] => []
  | x :: rest => start :: offsetsFrom (start + x) rest
  end.

(** The recurrence of the reverse schedule: [remaining -= duration;
    startOffset = remaining], in index order. *)
Fixpoint countdown (remaining : Q) (durs : list Q) : list Q :=
  match durs with
  | [] => []
  | x :: rest => (remaining - x) :: countdown (remaining - x) rest
  end.

Definition sumFrom (start : Q) (durs : list Q) : Q :=
  fold_left Qplus durs start.

(** The running maximum [if (duration > longest) longest = duration]. *)
Definition longestFrom (start : Q) (durs : list Q) : Q :=
  fold_left (fun m x => if Qltb m x then x else m) durs start.

(** ** Options *)

Definition set_options (sequential rev : bool) (mult : Q) (d : data) : data :=
  mkData (svgData d) sequential mult rev (delay d)
         (onStart d) (onComplete d) (paths d) (longestDuration d) (playhead d)
         (totalDuration d) (rAF d) (startTime d) (elapsedTime d) (paused d).

Definition set_speedMultiplier (mult : Q) (d : data) : data :=
  set_options (drawSequential d) (reverse d) mult d.

Definition set_onComplete (b : bool) (d : data) : data :=
  mkData (svgData d) (drawSequential d) (speedMultiplier d) (reverse d) (delay d)
         (onStart d) b (paths d) (longestDuration d) (playhead d)
         (totalDuration d) (rAF d) (startTime d) (elapsedTime d) (paused d).

(** The options object the plugin's [init] method caches when the user
    overrides nothing but [svgData]: the defaults of [$.extend]. *)
Definition defaults (segments : list strokepath) : data :=
  mkData segments true 1 false None false false [] 0 0 0 None
         JS.undefined JS.undefined false.

(** An element right after the plugin's [init] method: options cached,
    nothing requested, an empty svg. *)
Definition initialized (d : data) : world :=
  mkWorld (Some d) [] 0%nat [] 0%nat 0%nat 0%nat.

Definition segment (dur len : Q) : strokepath := mkStrokepath dur false len.

(** Three strokes of 600 ms each. *)
Definition threeStrokes : list strokepath :=
  [segment 600 100; segment 600 80; segment 600 40].

(** ** Successive frames on one path *)

(** The path after [draw] ran at the elapsed times [es], in that order. *)
Definition render (sequential rev : bool) (es : list Q) (p : pathObj) : pathObj :=
  fold_left (fun q e => drawPath sequential rev e q) es p.

(** Elapsed times that never go back, none of them before [lo]. *)
Fixpoint ascending (lo : Q) (es : list Q) : Prop :=
  match es with
  | [] => True
  | e :: rest => lo <= e /\ ascending e rest
  end.

(** The elapsed time of the last frame of [es], [lo] when there is none. *)
Definition latest (lo : Q) (es : list Q) : Q :=
  fold_left (fun _ e => e) es lo.

(** What the frames up to elapsed time [lo] leave behind: a visible length
    between 0 and the path's length which, while the path is not finished,
    is no more than its share at any later instant. *)
Definition settled (sequential : bool) (lo : Q) (p : pathObj) : Prop :=
  0 <= length p /\
  0 <= visibleLength p <= length p /\
  (pathElapsedTime sequential lo p < duration p ->
   forall t, pathElapsedTime sequential lo p <= t -> 0 <= t ->
             visibleLength p * duration p <= t * length p).

(** ** Reading the session *)

(** A field of the cached options object, when there is one. *)
Definition field {A : Type} (f : data -> A) (w : world) : option A :=
  option_map f (store w).

(** The world after a call of [paint] that returned. *)
Definition painted (w : world) : world :=
  match paint w with
  | Ok w' => w'
  | Throw _ => w
  end.

(** One stroke of 600 ms and length 100, with an [onComplete] callback. *)
Definition oneStroke : data :=
  set_onComplete true (defaults [segment 600 100]).

(** The session of [oneStroke] with frames at 1000, 1300 and 1600 ms: the
    last one falls exactly on [totalDuration]. *)
Definition exactFinish : world :=
  frame 1600 (frame 1300 (frame 1000 (painted (initialized oneStroke)))).

(** [paint] called a second time, between the frames at 1100 and 1200 ms
    of a running session. *)
Definition repainted : world :=
  painted (frame 1100 (frame 1000 (painted (initialized oneStroke)))).

(** Options no session should be built from: a negative duration and a
    negative speed multiplier. *)
Definition badOptions : data :=
  set_speedMultiplier (-1) (defaults [segment (-600) 100; segment 600 100]).

(** The session of [oneStroke] between its frames at 1300 and 1316 ms. *)
Definition running : world :=
  frame 1300 (frame 1000 (painted (initialized oneStroke))).

Definition dataOf (w : world) : data :=
  match store w with
  | Some d => d
  | None => oneStroke
  end.

(** The session [running], paused by [pauseResume]. *)
Definition pausedSession : world :=
  match pauseResume running with
  | Ok w => w
  | Throw _ => running
  end.

(** ** Runs of display frames *)

(** The display frames with the timestamps [ts], one after the other. *)
Definition play (ts : list Q) (w : world) : world :=
  fold_left (fun w' t => frame t w') ts w.


(** A path in the middle of its sweep. *)
Definition sweeping (sequential : bool) (elapsed : Q) (p : pathObj) : Prop :=
  0 < pathElapsedTime sequential elapsed p < duration p.

(** The options object as [draw] leaves it before it decides whether to
    request another frame: clock fields and strokes updated. *)
Definition drawnData (timestamp : Q) (d : data) : data :=
  let start := startOf timestamp (startTime d) in
  let elapsed := timestamp - start in
  set_paths (drawPaths (drawSequential d) (reverse d) elapsed
                       (svgData d) (paths d))
            (set_elapsedTime (JS.num elapsed)
                             (set_startTime (JS.num start) d)).

(** Two states of the options object with the same options and the same
    schedule: only the clock, the strokes' offsets and [rAF] may differ. *)
Definition sameSchedule (d d' : data) : Prop :=
  svgData d' = svgData d /\
  drawSequential d' = drawSequential d /\
  speedMultiplier d' = speedMultiplier d /\
  reverse d' = reverse d /\
  delay d' = delay d /\
  onStart d' = onStart d /\
  onComplete d' = onComplete d /\
  map duration (paths d') = map duration (paths d) /\
  map drawStartTime (paths d') = map drawStartTime (paths d) /\
  map length (paths d') = map length (paths d) /\
  totalDuration d' = totalDuration d /\
  paused d' = paused d.

(** ** Path attributes *)

(** A style value as the options carry it: absent, null, a string or a
    number. *)
Inductive attr : Type :=
| attr_undefined
| attr_null
| attr_str (s : string)
| attr_num (q : Q).

(** [!v] on a style value: absent, null, the empty string and 0 are
    falsy. *)
Definition attr_not (v : attr) : bool :=
  match v with
  | attr_undefined => true
  | attr_null => true
  | attr_str s => match s with EmptyString => true | String _ _ => false end
  | attr_num q => Qeq_bool q 0
  end.

(** The style options of the plugin, read by [getAttributes] from [data]. *)
Record style : Type := mkStyle {
  strokeColor : attr;
  strokeOpacity : attr;
  strokeWidth : attr;
  strokeCap : attr;
  strokeJoin : attr
}.

(** What [getAttributes] reads from one entry of [svgData]: the path
    string and the entry's own style values. *)
Record pathStyle : Type := mkPathStyle {
  sp_path : string;
  sp_strokeColor : attr;
  sp_strokeOpacity : attr;
  sp_strokeWidth : attr;
  sp_strokeCap : attr;
  sp_strokeJoin : attr
}.

(** The attribute object handed to [$path.attr]. *)
Record attributes : Type := mkAttributes {
  attr_d : string;
  attr_stroke : attr;
  attr_fill_opacity : Q;
  attr_stroke_opacity : attr;
  attr_stroke_width : attr;
  attr_stroke_linecap : attr;
  attr_stroke_linejoin : attr
}.

Definition getAttributes (data : style) (value : pathStyle) : attributes :=
  mkAttributes
    (sp_path value)
    (if attr_not (sp_strokeColor value) then strokeColor data
     else sp_strokeColor value)
    0
    (if attr_not (sp_strokeOpacity value) then strokeOpacity data
     else sp_strokeOpacity value)
    (if attr_not (sp_strokeWidth value) then strokeWidth data
     else sp_strokeWidth value)
    (if attr_not (sp_strokeCap value) then strokeCap data
     else sp_strokeCap value)
    (if attr_not (sp_strokeJoin value) then strokeJoin data
     else sp_strokeJoin value).

(** ** The plugin's [init] method *)

(** One entry of the [svgData] mapping the user passes: the strokes of a
    subject and its dimensions. *)
Record subject : Type := mkSubject {
  sj_strokepath : list strokepath;
  sj_width : Q;
  sj_height : Q
}.

(** The object passed to the plugin's [init] method.  [None] is a key the
    user did not give ([$.extend] keeps the default); for the options whose
    value may be null the inner [None] is null. *)
Record userOptions : Type := mkUserOptions {
  u_svgData : option (list (string * subject));
  u_width : option (option Q);
  u_height : option (option Q);
  u_strokeWidth : option attr;
  u_strokeColor : option attr;
  u_strokeCap : option attr;
  u_strokeJoin : option attr;
  u_strokeOpacity : option attr;
  u_onComplete : option bool;
  u_onStart : option bool;
  u_delay : option (option Q);
  u_overrideKey : option (option string);
  u_drawSequential : option bool;
  u_speedMultiplier : option Q;
  u_reverse : option bool;
  u_responsive : option bool
}.

(** The cached options that the timeline does not read. *)
Record pluginOptions : Type := mkPluginOptions {
  o_width : Q;
  o_height : Q;
  o_style : style;
  o_responsive : bool;
  o_overrideKey : option string
}.

(** The element the plugin is called on: its id attribute, whether it has
    the class [lazy-line], the size set with [css], the view boxes of the
    svg elements appended to it, and the options cached under [dataKey],
    whose timeline part is the [store] of [el_session]; the svg that
    [options.svg] refers to is created empty. *)
Record element : Type := mkElement {
  el_id : option string;
  el_lazyLine : bool;
  el_css : option (Q * Q);
  el_svgs : list (Q * Q);
  el_options : option pluginOptions;
  el_session : world
}.

(** [$.extend] on one key. *)
Definition extend {A : Type} (dflt : A) (given : option A) : A :=
  match given with
  | Some v => v
  | None => dflt
  end.

(** [svgData[key]] *)
Fixpoint lookup (key : string) (m : list (string * subject)) : option subject :=
  match m with
  | [] => None
  | (k, sj) :: rest => if String.eqb key k then Some sj else lookup key rest
  end.

(** [id.replace('#', '')]: the first [#] is removed. *)
Fixpoint dropHash (s : string) : string :=
  match s with
  | EmptyString => EmptyString
  | String c rest =>
      if Ascii.eqb c "#"%char then rest else String c (dropHash rest)
  end.

(** [options.overrideKey ? options.overrideKey :
    $this.attr('id').replace('#', '')] *)
Definition target (u : userOptions) (e : element) : result string :=
  match extend None (u_overrideKey u) with
  | Some (String c rest) => Ok (String c rest)
  | _ =>
      match el_id e with
      | Some i => Ok (dropHash i)
      | None => Throw TypeError
      end
  end.

Definition addClass (e : element) : element :=
  mkElement (el_id e) true (el_css e) (el_svgs e) (el_options e) (el_session e).

(** The plugin's [init] method on one element. *)
Definition pluginInit (u : userOptions) (e : element) : result element :=
  match store (el_session e) with
  | Some _ => Ok (addClass e)
  | None =>
      match target u e with
      | Throw x => Throw x
      | Ok key =>
          match u_svgData u with
          | None => Throw TypeError
          | Some m =>
              match lookup key m with
              | None => Throw TypeError
              | Some sj =>
                  let w := sj_width sj in
                  let h := sj_height sj in
                  let width := extend w (extend None (u_width u)) in
                  let height := extend h (extend None (u_height u)) in
                  let responsive := extend false (u_responsive u) in
                  let d :=
                    mkData (sj_strokepath sj)
                           (extend true (u_drawSequential u))
                           (extend 1 (u_speedMultiplier u))
                           (extend false (u_reverse u))
                           (extend None (u_delay u))
                           (extend false (u_onStart u))
                           (extend false (u_onComplete u))
                           [] 0 0 0 None JS.undefined JS.undefined false in
                  let o :=
                    mkPluginOptions
                      width height
                      (mkStyle
                         (extend (attr_str "#000") (u_strokeColor u))
                         (extend (attr_num 1) (u_strokeOpacity u))
                         (extend (attr_num 2) (u_strokeWidth u))
                         (extend (attr_str "round") (u_strokeCap u))
                         (extend (attr_str "round") (u_strokeJoin u)))
                      responsive
                      (extend None (u_overrideKey u)) in
                  Ok (mkElement (el_id e) true
                                (if responsive then el_css e
                                 else Some (width, height))
                                (el_svgs e ++ [(w, h)])
                                (Some o)
                                (set_svgChildren 0
                                   (set_store d (el_session e))))
              end
          end
      end
  end.

(** The options of the page's first drawing, with three of its strokes:
    [svgData] under the key [svg1], a stroke width and a colour. *)
Definition pageOptions : userOptions :=
  mkUserOptions (Some [("svg1"%string, mkSubject threeStrokes 200 190)])
                None None (Some (attr_num 2)) (Some (attr_str "#fff"))
                None None None None None None None None None None None.

(** Options that ask for another key, another mode and another speed. *)
Definition otherOptions : userOptions :=
  mkUserOptions (Some [("svg2"%string, mkSubject [segment 30000 900] 148 190)])
                None None None None None None None None None None
                (Some (Some "svg2"%string)) (Some false) (Some 2) None None.

(** The element [#svg1] before the plugin is called on it. *)
Definition pageElement : element :=
  mkElement (Some "svg1"%string) false None [] None
            (mkWorld None [] 0%nat [] 0%nat 0%nat 0%nat).

(** ** The loops of [init] in any arithmetic *)

(** The two loops of [init] use the numbers through [+], [-], [*] and [>]
    only.  Here they are once more, on the durations alone and over an
    arbitrary number type with these operations: the rationals give back
    [initLoop], the binary64 numbers give what a browser computes. *)
Section Arithmetic.

Variable num : Type.
Variable zero : num.
Variables plus minus times : num -> num -> num.
Variable less : num -> num -> bool.






End Arithmetic.




(** ** Pausing twice *)

(** The world after a call of [pauseResume] that returned. *)
Definition toggled (w : world) : world :=
  match pauseResume w with
  | Ok w' => w'
  | Throw _ => w
  end.

(** The session [running] (elapsed time 300) is paused and resumed, the
    frame at 5000 ms runs [adjustStartTime], and [pauseResume] is called
    again before the next frame: the playback is paused at elapsed time
    300. *)
Definition pausedAgain : world :=
  toggled (frame 5000 (toggled (toggled running))).

(** Display frames at 5016 and 5216 ms pass, [pauseResume] resumes, and
    the frame at 5232 ms runs. *)
Definition resumedAgain : world :=
  frame 5232 (toggled (frame 5216 (frame 5016 pausedAgain))).

(** A stroke of 600 ms and length 100 scheduled at offset 0, hidden as
    [init] leaves it. *)
Definition hiddenStroke : pathObj := mkPathObj 600 0 100 (100, 100) 100.

(** ** Keys *)

(** Whether a string contains [#]. *)
Fixpoint hasHash (s : string) : bool :=
  match s with
  | EmptyString => false
  | String c rest => Ascii.eqb c "#"%char || hasHash rest
  end.

(** ** Comparisons *)

Lemma Qltb_lt (x y : Q) : Qltb x y = true <-> x < y.
Proof.
  unfold Qltb. rewrite negb_true_iff. split; intro H.
  - apply Qnot_le_lt. intro Hle. apply Qle_bool_iff in Hle. congruence.
  - destruct (Qle_bool y x) eqn:E; [|reflexivity].
    apply Qle_bool_iff in E. apply Qle_not_lt in E. contradiction.
Qed.

Lemma Qltb_ge (x y : Q) : Qltb x y = false <-> y <= x.
Proof.
  unfold Qltb. rewrite negb_false_iff. apply Qle_bool_iff.
Qed.

Ltac qcases :=
  repeat match goal with
  | H : Qltb _ _ = true |- _ => apply Qltb_lt in H
  | H : Qltb _ _ = false |- _ => apply Qltb_ge in H
  | H : _ && _ = true |- _ => apply andb_prop in H; destruct H
  | H : _ && _ = false |- _ => apply andb_false_iff in H
  end.

(** ** The loops of [init] *)

Section InitLoop.

Variable d : data.

Lemma sumDurations_sumFrom :
  sumDurations d = sumFrom 0 (map (scaled d) (svgData d)).
Proof.
  unfold sumDurations, sumFrom.
  generalize 0. induction (svgData d) as [|s l IH]; intro q; simpl.
  - reflexivity.
  - apply IH.
Qed.

Lemma initLoop_duration (l : list strokepath) :
  forall v,
    map duration (lv_paths (fold_left (initStep d) l v))
    = map duration (lv_paths v) ++ map (scaled d) l.
Proof.
  induction l as [|s l IH]; intro v; simpl.
  - now rewrite app_nil_r.
  - rewrite IH. simpl. rewrite map_app, <- app_assoc. reflexivity.
Qed.

Lemma initLoop_length (l : list strokepath) :
  forall v,
    map length (lv_paths (fold_left (initStep d) l v))
    = map length (lv_paths v) ++ map sp_length l.
Proof.
  induction l as [|s l IH]; intro v; simpl.
  - now rewrite app_nil_r.
  - rewrite IH. simpl. rewrite map_app, <- app_assoc. reflexivity.
Qed.

Lemma initLoop_offset (l : list strokepath) :
  forall v,
    map strokeDashoffset (lv_paths (fold_left (initStep d) l v))
    = map strokeDashoffset (lv_paths v) ++ map sp_length l.
Proof.
  induction l as [|s l IH]; intro v; simpl.
  - now rewrite app_nil_r.
  - rewrite IH. simpl. rewrite map_app, <- app_assoc. reflexivity.
Qed.

Lemma initLoop_playhead (l : list strokepath) :
  forall v,
    lv_playhead (fold_left (initStep d) l v)
    = sumFrom (lv_playhead v) (map (scaled d) l).
Proof.
  induction l as [|s l IH]; intro v; simpl.
  - reflexivity.
  - rewrite IH. reflexivity.
Qed.

Lemma initLoop_longest (l : list strokepath) :
  forall v,
    lv_longestDuration (fold_left (initStep d) l v)
    = longestFrom (lv_longestDuration v) (map (scaled d) l).
Proof.
  induction l as [|s l IH]; intro v; simpl.
  - reflexivity.
  - rewrite IH. reflexivity.
Qed.

Lemma initLoop_forward (l : list strokepath) :
  reverse d = false ->
  forall v,
    map drawStartTime (lv_paths (fold_left (initStep d) l v))
    = map drawStartTime (lv_paths v)
        ++ offsetsFrom (lv_playhead v) (map (scaled d) l).
Proof.
  intro Hrev. induction l as [|s l IH]; intro v; simpl.
  - now rewrite app_nil_r.
  - rewrite IH. unfold initStep at 1 2. rewrite Hrev. simpl.
    rewrite map_app, <- app_assoc. reflexivity.
Qed.

Lemma initLoop_reverse (l : list strokepath) :
  reverse d = true ->
  forall v,
    map drawStartTime (lv_paths (fold_left (initStep d) l v))
    = map drawStartTime (lv_paths v)
        ++ countdown (lv_totalDuration v) (map (scaled d) l).
Proof.
  intro Hrev. induction l as [|s l IH]; intro v; simpl.
  - now rewrite app_nil_r.
  - rewrite IH. unfold initStep at 1 2. rewrite Hrev. simpl.
    rewrite map_app, <- app_assoc. reflexivity.
Qed.

End InitLoop.

(** ** Facts about the two recurrences *)

Lemma sumFrom_shift (l : list Q) :
  forall s, sumFrom s l == s + sumFrom 0 l.
Proof.
  unfold sumFrom. induction l as [|x l IH]; intro s; simpl.
  - lra.
  - rewrite (IH (s + x)), (IH (0 + x)). lra.
Qed.

Lemma offsetsFrom_length (l : list Q) :
  forall s, List.length (offsetsFrom s l) = List.length l.
Proof.
  induction l as [|x l IH]; intro s; simpl; [reflexivity | now rewrite IH].
Qed.

Lemma offsetsFrom_next (l : list Q) :
  forall s i a x b,
    nth_error (offsetsFrom s l) i = Some a ->
    nth_error l i = Some x ->
    nth_error (offsetsFrom s l) (S i) = Some b ->
    b = a + x.
Proof.
  induction l as [|y l IH]; intros s i a x b Ha Hx Hb.
  - destruct i; discriminate.
  - destruct i as [|i]; simpl in *.
    + injection Ha as <-. injection Hx as <-.
      destruct l; simpl in Hb; [discriminate | now injection Hb].
    + eapply IH; eassumption.
Qed.

Lemma offsetsFrom_last (l : list Q) :
  forall s a x,
    nth_error (offsetsFrom s l) (pred (List.length l)) = Some a ->
    nth_error l (pred (List.length l)) = Some x ->
    a + x = sumFrom s l.
Proof.
  induction l as [|y l IH]; intros s a x Ha Hx.
  - discriminate.
  - destruct l as [|z l].
    + simpl in *. injection Ha as <-. injection Hx as <-. reflexivity.
    + change (sumFrom s (y :: z :: l)) with (sumFrom (s + y) (z :: l)).
      apply IH; assumption.
Qed.

Lemma offsetsFrom_ge (l : list Q) :
  Forall (fun x => 0 <= x) l ->
  forall s j b, nth_error (offsetsFrom s l) j = Some b -> s <= b.
Proof.
  induction 1 as [|y l Hy Hl IH]; intros s j b Hb.
  - destruct j; discriminate.
  - destruct j as [|j]; simpl in Hb.
    + injection Hb as <-. lra.
    + apply IH in Hb. lra.
Qed.

Lemma offsetsFrom_disjoint (l : list Q) :
  Forall (fun x => 0 <= x) l ->
  forall s i j a x b,
    (i < j)%nat ->
    nth_error (offsetsFrom s l) i = Some a ->
    nth_error l i = Some x ->
    nth_error (offsetsFrom s l) j = Some b ->
    a + x <= b.
Proof.
  induction 1 as [|y l Hy Hl IH]; intros s i j a x b Hij Ha Hx Hb.
  - destruct i; discriminate.
  - destruct j as [|j]; [lia|].
    destruct i as [|i]; simpl in *.
    + injection Ha as <-. injection Hx as <-.
      eapply offsetsFrom_ge; eassumption.
    + eapply (IH (s + y) i j); try eassumption. lia.
Qed.

Lemma countdown_length (l : list Q) :
  forall r, List.length (countdown r l) = List.length l.
Proof.
  induction l as [|x l IH]; intro r; simpl; [reflexivity | now rewrite IH].
Qed.

Lemma countdown_last (l : list Q) :
  forall r a,
    nth_error (countdown r l) (pred (List.length l)) = Some a ->
    a == r - sumFrom 0 l.
Proof.
  induction l as [|y l IH]; intros r a Ha.
  - discriminate.
  - destruct l as [|z l].
    + simpl in *. injection Ha as <-. unfold sumFrom. simpl. lra.
    + change (sumFrom 0 (y :: z :: l)) with (sumFrom (0 + y) (z :: l)).
      rewrite sumFrom_shift.
      apply (IH (r - y)) in Ha. rewrite Ha. lra.
Qed.

Lemma countdown_end (l : list Q) :
  Forall (fun x => 0 <= x) l ->
  forall r i a x,
    nth_error (countdown r l) i = Some a ->
    nth_error l i = Some x ->
    a + x <= r.
Proof.
  induction 1 as [|y l Hy Hl IH]; intros r i a x Ha Hx.
  - destruct i; discriminate.
  - destruct i as [|i]; simpl in *.
    + injection Ha as <-. injection Hx as <-. lra.
    + pose proof (IH (r - y) i a x Ha Hx). lra.
Qed.

Lemma longestFrom_upper (l : list Q) :
  forall m, m <= longestFrom m l /\ Forall (fun x => x <= longestFrom m l) l.
Proof.
  unfold longestFrom.
  induction l as [|y l IH]; intro m; simpl.
  - split; [lra | constructor].
  - destruct (Qltb m y) eqn:E; qcases.
    + destruct (IH y) as [H1 H2]. split; [lra|]. constructor; assumption.
    + destruct (IH m) as [H1 H2]. split; [lra|]. constructor; [lra | assumption].
Qed.


(** ** The schedule [init] stores *)

Lemma init_store (d : data) (w : world) :
  store (init d w) = Some (set_rAF (Some (nextHandle w)) (schedule d)).
Proof.
  unfold init. simpl. destruct (onStart d); reflexivity.
Qed.

Lemma init_frames (d : data) (w : world) :
  frames (init d w) = frames w ++ [(nextHandle w, CbDraw)].
Proof.
  unfold init. simpl. destruct (onStart d); reflexivity.
Qed.

Lemma schedule_durations (d : data) :
  map duration (paths (schedule d)) = map (scaled d) (svgData d).
Proof.
  unfold schedule, initLoop. simpl. now rewrite initLoop_duration.
Qed.

Lemma schedule_forward (d : data) :
  reverse d = false ->
  map drawStartTime (paths (schedule d))
  = offsetsFrom 0 (map (scaled d) (svgData d)).
Proof.
  intro H. unfold schedule, initLoop. simpl.
  now rewrite initLoop_forward.
Qed.

Lemma schedule_reverse (d : data) :
  reverse d = true ->
  map drawStartTime (paths (schedule d))
  = countdown (sumDurations d) (map (scaled d) (svgData d)).
Proof.
  intro H. unfold schedule, initLoop. simpl.
  now rewrite initLoop_reverse.
Qed.

Lemma schedule_playhead (d : data) :
  playhead (schedule d) = sumFrom 0 (map (scaled d) (svgData d)).
Proof.
  unfold schedule, initLoop. simpl. now rewrite initLoop_playhead.
Qed.

Lemma schedule_longest (d : data) :
  longestDuration (schedule d) = longestFrom 0 (map (scaled d) (svgData d)).
Proof.
  unfold schedule, initLoop. simpl. now rewrite initLoop_longest.
Qed.

Lemma schedule_total (d : data) :
  totalDuration (schedule d)
  = if drawSequential d then playhead (schedule d)
    else longestDuration (schedule d).
Proof. reflexivity. Qed.

Lemma schedule_size (d : data) :
  List.length (paths (schedule d)) = List.length (svgData d).
Proof.
  rewrite <- (length_map duration), schedule_durations. apply length_map.
Qed.

Lemma startOffset_nth (d : data) (i : nat) :
  startOffset d i = nth_error (map drawStartTime (paths d)) i.
Proof. unfold startOffset. now rewrite nth_error_map. Qed.

Lemma durationScaled_nth (d : data) (i : nat) :
  durationScaled d i = nth_error (map duration (paths d)) i.
Proof. unfold durationScaled. now rewrite nth_error_map. Qed.

Lemma durationScaled_schedule (d : data) (i : nat) :
  durationScaled (schedule d) i = option_map (scaled d) (nth_error (svgData d) i).
Proof.
  now rewrite durationScaled_nth, schedule_durations, nth_error_map.
Qed.

Lemma durations_nonneg (d : data) :
  (forall i x, durationScaled (schedule d) i = Some x -> 0 <= x) ->
  Forall (fun x => 0 <= x) (map (scaled d) (svgData d)).
Proof.
  intro H. apply Forall_forall. intros x Hx.
  apply In_nth_error in Hx. destruct Hx as [i Hi].
  apply (H i). now rewrite durationScaled_nth, schedule_durations.
Qed.

(** A delayed [paint] builds the same schedule when its timeout expires. *)
Lemma paint_delayed (w : world) (d : data) (ms : Q) :
  store w = Some d ->
  delay d = Some ms ->
  timeouts w = [] ->
  paint w = Ok (setTimeout ms w) /\
  frames (setTimeout ms w) = frames w /\
  fireTimeout (setTimeout ms w) = init d w.
Proof.
  intros Hs Hd Ht. unfold paint. rewrite Hs, Hd.
  split; [reflexivity|]. split; [reflexivity|].
  destruct w as [st fr nh to ch os oc]. simpl in Hs, Ht. subst st to.
  reflexivity.
Qed.

(** ** Sequential schedules *)

(** C1. Sequential mode, global reverse flag false: [init] stores a
    schedule whose durations are the scaled durations of [svgData], whose
    first start offset is 0, whose every next start offset is the previous
    one plus the previous scaled duration (the recurrence [offsetsFrom]),
    and whose last interval ends at [totalDuration]; with non-negative
    durations the intervals [startOffset, startOffset + durationScaled) do
    not overlap. *)
Theorem sequential_forward_schedule (d : data) (w : world) :
  drawSequential d = true ->
  reverse d = false ->
  exists d',
    store (init d w) = Some d' /\
    List.length (paths d') = List.length (svgData d) /\
    (forall i, durationScaled d' i
               = option_map (fun s => sp_duration s * speedMultiplier d)
                            (nth_error (svgData d) i)) /\
    map drawStartTime (paths d') = offsetsFrom 0 (map duration (paths d')) /\
    (forall a, startOffset d' 0 = Some a -> a = 0) /\
    (forall i a x b,
        startOffset d' i = Some a -> durationScaled d' i = Some x ->
        startOffset d' (S i) = Some b -> b = a + x) /\
    (forall a x,
        startOffset d' (pred (List.length (paths d'))) = Some a ->
        durationScaled d' (pred (List.length (paths d'))) = Some x ->
        a + x = totalDuration d') /\
    (paths d' = [] -> totalDuration d' = 0) /\
    ((forall i x, durationScaled d' i = Some x -> 0 <= x) ->
     forall i j a x b,
       (i < j)%nat ->
       startOffset d' i = Some a -> durationScaled d' i = Some x ->
       startOffset d' j = Some b -> a + x <= b).
Proof.
  intros Hseq Hrev.
  exists (set_rAF (Some (nextHandle w)) (schedule d)).
  split; [apply init_store|].
  change (paths (set_rAF (Some (nextHandle w)) (schedule d)))
    with (paths (schedule d)).
  change (totalDuration (set_rAF (Some (nextHandle w)) (schedule d)))
    with (totalDuration (schedule d)).
  assert (Hs : forall i, startOffset (set_rAF (Some (nextHandle w)) (schedule d)) i
                         = nth_error (offsetsFrom 0 (map (scaled d) (svgData d))) i).
  { intro i. rewrite startOffset_nth.
    change (paths (set_rAF (Some (nextHandle w)) (schedule d)))
      with (paths (schedule d)).
    now rewrite schedule_forward. }
  assert (Hd : forall i, durationScaled (set_rAF (Some (nextHandle w)) (schedule d)) i
                         = nth_error (map (scaled d) (svgData d)) i).
  { intro i. rewrite durationScaled_nth.
    change (paths (set_rAF (Some (nextHandle w)) (schedule d)))
      with (paths (schedule d)).
    now rewrite schedule_durations. }
  assert (Ht : totalDuration (schedule d) = sumFrom 0 (map (scaled d) (svgData d))).
  { rewrite schedule_total, Hseq. apply schedule_playhead. }
  repeat split.
  - apply schedule_size.
  - intro i. rewrite Hd. apply nth_error_map.
  - rewrite schedule_durations. apply schedule_forward, Hrev.
  - intros a Ha. rewrite Hs in Ha.
    destruct (map (scaled d) (svgData d)); simpl in Ha; [discriminate|].
    now injection Ha.
  - intros i a x b Ha Hx Hb. rewrite Hs in Ha, Hb. rewrite Hd in Hx.
    eapply offsetsFrom_next; eassumption.
  - intros a x Ha Hx. rewrite Hs in Ha. rewrite Hd in Hx.
    rewrite schedule_size, <- (length_map (scaled d)) in Ha, Hx.
    rewrite Ht. apply offsetsFrom_last; assumption.
  - intro He. rewrite Ht.
    assert (Hl : List.length (svgData d) = 0%nat)
      by (rewrite <- schedule_size, He; reflexivity).
    destruct (svgData d); [reflexivity | discriminate].
  - intros Hpos i j a x b Hij Ha Hx Hb.
    rewrite Hs in Ha, Hb. rewrite Hd in Hx.
    eapply offsetsFrom_disjoint; try eassumption.
    apply durations_nonneg. intros k y Hy. apply (Hpos k).
    rewrite Hd. now rewrite durationScaled_nth, schedule_durations in Hy.
Qed.

Lemma started_starts (h : option handle) (d : data) (i : nat) :
  startOffset (set_rAF h (schedule d)) i
  = nth_error (map drawStartTime (paths (schedule d))) i.
Proof. exact (startOffset_nth (set_rAF h (schedule d)) i). Qed.


Lemma sequential_forward_schedule_witness :
  exists d',
    store (init (defaults threeStrokes) (initialized (defaults threeStrokes)))
    = Some d' /\
    map drawStartTime (paths d') = [0; 0 + 600 * 1; 0 + 600 * 1 + 600 * 1] /\
    totalDuration d' == 1800 /\
    (forall a, startOffset d' 0 = Some a -> a = 0).
Proof.
  destruct (sequential_forward_schedule (defaults threeStrokes)
              (initialized (defaults threeStrokes)) eq_refl eq_refl)
    as [d' [Hst [_ [_ [_ [H0 _]]]]]].
  exists d'. split; [exact Hst|].
  rewrite init_store in Hst. injection Hst as <-.
  split; [reflexivity|]. split; [reflexivity | exact H0].
Defined.











(** ** Parallel schedules *)



(** ** The speed multiplier *)

Lemma sumFrom_doubles (l : list strokepath) :
  forall a b,
    b == 2 * a ->
    sumFrom b (map (fun s => sp_duration s * 2) l)
    == 2 * sumFrom a (map (fun s => sp_duration s * 1) l).
Proof.
  unfold sumFrom. induction l as [|s l IH]; intros a b Hab; simpl.
  - exact Hab.
  - apply IH. rewrite Hab. ring.
Qed.

Lemma longestFrom_doubles (l : list strokepath) :
  forall a b,
    b == 2 * a ->
    longestFrom b (map (fun s => sp_duration s * 2) l)
    == 2 * longestFrom a (map (fun s => sp_duration s * 1) l).
Proof.
  unfold longestFrom. induction l as [|s l IH]; intros a b Hab; simpl.
  - exact Hab.
  - destruct (Qltb b (sp_duration s * 2)) eqn:E2;
      destruct (Qltb a (sp_duration s * 1)) eqn:E1; qcases.
    + apply IH. ring.
    + rewrite Hab in E2. lra.
    + rewrite Hab in E2. lra.
    + apply IH, Hab.
Qed.

(** C4, as the code has it.  The scaled duration is [duration *
    speedMultiplier]: with [speedMultiplier = 2] every scaled duration and
    [totalDuration] are twice what they are with [speedMultiplier = 1], in
    both modes. *)
Theorem speedMultiplier_2_doubles (d : data) :
  Forall2 (fun x y => y == 2 * x)
          (map duration (paths (schedule (set_speedMultiplier 1 d))))
          (map duration (paths (schedule (set_speedMultiplier 2 d)))) /\
  totalDuration (schedule (set_speedMultiplier 2 d))
  == 2 * totalDuration (schedule (set_speedMultiplier 1 d)).
Proof.
  split.
  - rewrite !schedule_durations.
    change (svgData (set_speedMultiplier 1 d)) with (svgData d).
    change (svgData (set_speedMultiplier 2 d)) with (svgData d).
    induction (svgData d) as [|s l IH]; simpl; constructor.
    + unfold scaled. simpl. ring.
    + exact IH.
  - rewrite !schedule_total, !schedule_playhead, !schedule_longest.
    change (drawSequential (set_speedMultiplier 1 d)) with (drawSequential d).
    change (drawSequential (set_speedMultiplier 2 d)) with (drawSequential d).
    change (svgData (set_speedMultiplier 1 d)) with (svgData d).
    change (svgData (set_speedMultiplier 2 d)) with (svgData d).
    destruct (drawSequential d).
    + apply (sumFrom_doubles (svgData d) 0 0). ring.
    + apply (longestFrom_doubles (svgData d) 0 0). ring.
Qed.

(** The claim C4 as it is written fails: three strokes of 600 ms each,
    sequential.  With [speedMultiplier = 1] the first scaled duration is 600
    and the total 1800; with [speedMultiplier = 2] they are 1200 and 3600,
    not 300 and 900. *)
Lemma speedMultiplier_2_does_not_halve :
  let slow := schedule (set_speedMultiplier 1 (defaults threeStrokes)) in
  let fast := schedule (set_speedMultiplier 2 (defaults threeStrokes)) in
  durationScaled slow 0 = Some (600 * 1) /\
  durationScaled fast 0 = Some (600 * 2) /\
  ~ (600 * 2 == (1 # 2) * (600 * 1)) /\
  totalDuration slow == 1800 /\
  totalDuration fast == 3600 /\
  ~ (totalDuration fast == (1 # 2) * totalDuration slow).
Proof.
  repeat split; try reflexivity; vm_compute; discriminate.
Qed.

(** ** The frame step on one path *)

Lemma pathElapsedTime_mono (sequential : bool) (e e' : Q) (p : pathObj) :
  e <= e' ->
  pathElapsedTime sequential e p <= pathElapsedTime sequential e' p.
Proof.
  intro H. unfold pathElapsedTime. destruct sequential; [|exact H].
  destruct (Qltb (e - drawStartTime p) 0) eqn:E1;
    destruct (Qltb (e' - drawStartTime p) 0) eqn:E2; qcases; lra.
Qed.

Lemma pathElapsedTime_offset (sequential : bool) (e o : Q) (p : pathObj) :
  pathElapsedTime sequential e (set_strokeDashoffset o p)
  = pathElapsedTime sequential e p.
Proof. reflexivity. Qed.

Lemma share_bounds (t dur len : Q) :
  0 < t -> t < dur -> 0 <= len ->
  0 <= t / dur * len <= len /\ t / dur * len * dur == t * len.
Proof.
  intros Ht Hd Hl.
  assert (Hdp : 0 < dur) by lra.
  assert (H0 : 0 < t / dur) by (apply Qlt_shift_div_l; lra).
  assert (H1 : t / dur < 1) by (apply Qlt_shift_div_r; lra).
  split; [split|].
  - apply Qmult_le_0_compat; lra.
  - setoid_replace len with (1 * len) at 2 by ring.
    apply Qmult_le_compat_r; lra.
  - field. lra.
Qed.

Lemma visibleLength_sweep (rev : bool) (p : pathObj) (fl : Q) :
  0 <= fl <= length p ->
  visibleLength
    (if rev then set_strokeDashoffset (- length p + fl) p
     else set_strokeDashoffset (length p - fl) p)
  == fl.
Proof.
  intros [H0 H1]. destruct rev.
  - change (length p - Qabs (- length p + fl) == fl).
    rewrite Qabs_neg by lra. ring.
  - change (length p - Qabs (length p - fl) == fl).
    rewrite Qabs_pos by lra. ring.
Qed.

Lemma drawPath_shape (sequential rev : bool) (e : Q) (p : pathObj) :
  duration (drawPath sequential rev e p) = duration p /\
  drawStartTime (drawPath sequential rev e p) = drawStartTime p /\
  length (drawPath sequential rev e p) = length p.
Proof.
  unfold drawPath.
  destruct (Qltb _ (duration p) && Qltb 0 _);
    [destruct rev | destruct (Qltb (duration p) _)]; repeat split.
Qed.

Lemma drawPath_elapsed (sequential rev : bool) (e e' : Q) (p : pathObj) :
  pathElapsedTime sequential e' (drawPath sequential rev e p)
  = pathElapsedTime sequential e' p.
Proof.
  unfold pathElapsedTime.
  destruct (drawPath_shape sequential rev e p) as [_ [-> _]]. reflexivity.
Qed.

(** A path exactly at the end of its duration, or not yet started, is left
    as the previous frame drew it. *)
Lemma drawPath_untouched (sequential rev : bool) (e : Q) (p : pathObj) :
  pathElapsedTime sequential e p == duration p \/
  pathElapsedTime sequential e p <= 0 /\
  pathElapsedTime sequential e p <= duration p ->
  drawPath sequential rev e p = p.
Proof.
  intro H. unfold drawPath.
  destruct (Qltb _ (duration p) && Qltb 0 _) eqn:E1.
  - qcases. destruct H as [H | [H H']]; lra.
  - destruct (Qltb (duration p) _) eqn:E2; [|reflexivity].
    qcases. destruct H as [H | [H H']]; lra.
Qed.

(** One more frame, not earlier than the last one. *)
Lemma drawPath_step (sequential rev : bool) (lo e : Q) (p : pathObj) :
  settled sequential lo p ->
  lo <= e ->
  visibleLength p <= visibleLength (drawPath sequential rev e p) /\
  settled sequential e (drawPath sequential rev e p).
Proof.
  intros [Hlen [[Hv0 Hv1] Hshare]] Hle.
  pose proof (pathElapsedTime_mono sequential lo e p Hle) as Hmono.
  unfold settled. rewrite drawPath_elapsed.
  destruct (drawPath_shape sequential rev e p) as [-> [_ ->]].
  unfold drawPath.
  set (t := pathElapsedTime sequential e p) in *.
  destruct (Qltb t (duration p) && Qltb 0 t) eqn:E1.
  - qcases.
    destruct (share_bounds t (duration p) (length p)) as [Hb Hs]; try assumption.
    pose proof (visibleLength_sweep rev p _ Hb) as Hvis.
    rewrite Hvis.
    assert (Hprev : visibleLength p * duration p <= t * length p)
      by (apply Hshare; lra).
    split; [|split; [assumption | split; [exact Hb|]]].
    + apply Qmult_le_r with (z := duration p); [lra|].
      apply Qle_trans with (t * length p); [exact Hprev|].
      apply Qle_lteq. right. symmetry. exact Hs.
    + intros _ t' Ht' Ht0.
      apply Qle_trans with (t * length p).
      * apply Qle_lteq. right. rewrite <- Hs.
        apply Qmult_comp; [exact Hvis | reflexivity].
      * apply Qmult_le_compat_r; assumption.
  - destruct (Qltb (duration p) t) eqn:E2.
    + qcases.
      change (visibleLength (set_strokeDashoffset 0 p))
        with (length p - Qabs 0).
      rewrite Qabs_pos by lra.
      split; [lra|]. split; [assumption|]. split; [lra|]. intro; lra.
    + split; [lra|]. split; [assumption|]. split; [split; assumption|].
      intros Hlt t' Ht' Ht0. apply Hshare; [|lra|assumption].
      qcases. lra.
Qed.

Lemma settled_hidden (sequential : bool) (lo : Q) (p : pathObj) :
  0 <= length p ->
  strokeDashoffset p == length p ->
  settled sequential lo p /\ visibleLength p == 0.
Proof.
  intros Hl Ho.
  assert (Hv : visibleLength p == 0).
  { unfold visibleLength. rewrite Ho, Qabs_pos by assumption. ring. }
  split; [|exact Hv]. unfold settled. rewrite Hv.
  split; [assumption|]. split; [split; lra|].
  intros _ t _ Ht. apply Qle_trans with 0.
  - apply Qle_lteq. right. rewrite Hv. ring.
  - apply Qmult_le_0_compat; assumption.
Qed.

Lemma ascending_snoc (es : list Q) :
  forall lo e,
    ascending lo (es ++ [e]) -> ascending lo es /\ latest lo es <= e.
Proof.
  induction es as [|e0 es IH]; intros lo e H.
  - destruct H as [H _]. split; [exact I | exact H].
  - destruct H as [H0 H]. apply IH in H. destruct H as [Ha Hl].
    split; [split; assumption | exact Hl].
Qed.

Lemma render_settled (sequential rev : bool) (es : list Q) :
  forall lo p,
    settled sequential lo p ->
    ascending lo es ->
    settled sequential (latest lo es) (render sequential rev es p).
Proof.
  induction es as [|e0 es IH]; intros lo p Hs Ha.
  - exact Hs.
  - destruct Ha as [H0 Ha].
    destruct (drawPath_step sequential rev lo e0 p Hs H0) as [_ Hs'].
    exact (IH e0 _ Hs' Ha).
Qed.

Lemma render_snoc (sequential rev : bool) (es : list Q) (e : Q) (p : pathObj) :
  render sequential rev (es ++ [e]) p
  = drawPath sequential rev e (render sequential rev es p).
Proof. unfold render. now rewrite fold_left_app. Qed.

Lemma render_shape (sequential rev : bool) (es : list Q) :
  forall p, length (render sequential rev es p) = length p.
Proof.
  induction es as [|e es IH]; intro p; [reflexivity|].
  unfold render in *. simpl. rewrite IH.
  now destruct (drawPath_shape sequential rev e p) as [_ [_ ->]].
Qed.

(** Whatever the elapsed time, a frame leaves the visible length between 0
    and the length of the path. *)
Lemma drawPath_bounds (sequential rev : bool) (e : Q) (p : pathObj) :
  0 <= length p ->
  0 <= visibleLength p <= length p ->
  0 <= visibleLength (drawPath sequential rev e p) <= length p.
Proof.
  intros Hlen Hv. unfold drawPath.
  set (t := pathElapsedTime sequential e p).
  destruct (Qltb t (duration p) && Qltb 0 t) eqn:E1.
  - qcases.
    destruct (share_bounds t (duration p) (length p)) as [Hb _]; try assumption.
    pose proof (visibleLength_sweep rev p _ Hb) as Hvis.
    destruct Hb as [Hb0 Hb1]. split.
    + apply Qle_trans with (t / duration p * length p); [exact Hb0|].
      apply Qle_lteq. right. symmetry. exact Hvis.
    + apply Qle_trans with (t / duration p * length p); [|exact Hb1].
      apply Qle_lteq. right. exact Hvis.
  - destruct (Qltb (duration p) t) eqn:E2; [|exact Hv].
    change (visibleLength (set_strokeDashoffset 0 p)) with (length p - Qabs 0).
    rewrite Qabs_pos by lra. lra.
Qed.

Lemma render_bounds (sequential rev : bool) (es : list Q) :
  forall p,
    0 <= length p ->
    0 <= visibleLength p <= length p ->
    0 <= visibleLength (render sequential rev es p) <= length p.
Proof.
  induction es as [|e es IH]; intros p Hlen Hv; [exact Hv|].
  change (render sequential rev (e :: es) p)
    with (render sequential rev es (drawPath sequential rev e p)).
  destruct (drawPath_shape sequential rev e p) as [_ [_ Hl]].
  rewrite <- Hl. apply IH; rewrite Hl; [assumption|].
  apply drawPath_bounds; assumption.
Qed.

Lemma fraction_bounds (p : pathObj) :
  0 <= length p ->
  0 <= visibleLength p <= length p ->
  0 <= visibleFraction p <= 1.
Proof.
  intros Hl [H0 H1]. unfold visibleFraction.
  destruct (Qeq_dec (length p) 0) as [Hz | Hnz].
  - rewrite Hz. unfold Qdiv. change (/ 0) with 0.
    setoid_replace (visibleLength p * 0) with 0 by ring. lra.
  - assert (Hpos : 0 < length p) by lra. split.
    + apply Qle_shift_div_l; lra.
    + apply Qle_shift_div_r; lra.
Qed.

Lemma fraction_mono (p q : pathObj) :
  length q = length p ->
  0 <= length p ->
  visibleLength p <= visibleLength q ->
  visibleFraction p <= visibleFraction q.
Proof.
  intros Hlen Hl Hv. unfold visibleFraction. rewrite Hlen.
  unfold Qdiv. apply Qmult_le_compat_r; [exact Hv|].
  apply Qinv_le_0_compat, Hl.
Qed.

(** X18. The sweep is linear in time: between its start and its end a path
    of positive length shows the share [pathElapsedTime / duration] of its
    stroke, and past its end all of it. *)
Lemma drawPath_linear (sequential rev : bool) (e : Q) (p : pathObj) :
  0 < length p ->
  (0 < pathElapsedTime sequential e p < duration p ->
   visibleFraction (drawPath sequential rev e p)
   == pathElapsedTime sequential e p / duration p) /\
  (duration p < pathElapsedTime sequential e p ->
   visibleFraction (drawPath sequential rev e p) == 1).
Proof.
  intro Hlen. unfold visibleFraction.
  destruct (drawPath_shape sequential rev e p) as [_ [_ ->]].
  unfold drawPath. set (t := pathElapsedTime sequential e p).
  split.
  - intros [H0 H1].
    apply Qltb_lt in H0, H1. rewrite H0, H1. cbn [andb].
    apply Qltb_lt in H0, H1.
    destruct (share_bounds t (duration p) (length p)) as [Hb _]; try lra.
    pose proof (visibleLength_sweep rev p _ Hb) as Hvis.
    apply Qeq_trans with (t / duration p * length p / length p).
    + apply Qmult_comp; [exact Hvis | reflexivity].
    + field. lra.
  - intro H.
    assert (E1 : Qltb t (duration p) = false) by (apply Qltb_ge; lra).
    apply Qltb_lt in H. rewrite E1, H. cbn [andb].
    change (visibleLength (set_strokeDashoffset 0 p)) with (length p - Qabs 0).
    rewrite Qabs_pos by lra. field. lra.
Qed.

(** X20. Along one run: a path that [init] left hidden and that [draw] then
    visits at any elapsed times shows a fraction of its stroke between 0
    and 1; and when the elapsed times do not go back, one more frame never
    shows less than the frames before it.  Both modes, both directions, any
    duration and start offset. *)
Theorem visible_fraction_monotone (sequential rev : bool) (p : pathObj) :
  0 <= length p ->
  strokeDashoffset p == length p ->
  (forall es, 0 <= visibleFraction (render sequential rev es p) <= 1) /\
  (forall lo es e,
      ascending lo (es ++ [e]) ->
      visibleFraction (render sequential rev es p)
      <= visibleFraction (render sequential rev (es ++ [e]) p)).
Proof.
  intros Hlen Hhid. split.
  - intro es.
    destruct (settled_hidden sequential 0 p Hlen Hhid) as [[_ [Hv _]] _].
    apply fraction_bounds.
    + now rewrite render_shape.
    + rewrite render_shape. apply render_bounds; assumption.
  - intros lo es e Hasc.
    apply ascending_snoc in Hasc. destruct Hasc as [Hasc Hlast].
    destruct (settled_hidden sequential lo p Hlen Hhid) as [Hs _].
    pose proof (render_settled sequential rev es lo p Hs Hasc) as Hs'.
    rewrite render_snoc.
    destruct (drawPath_step sequential rev _ e _ Hs' Hlast) as [Hm _].
    apply fraction_mono.
    + now destruct (drawPath_shape sequential rev e
                      (render sequential rev es p)) as [_ [_ ->]].
    + now rewrite render_shape.
    + exact Hm.
Qed.

(** ** Pause and resume *)

Lemma startOf_running (timestamp q : Q) :
  ~ q == 0 -> startOf timestamp (JS.num q) = q.
Proof.
  intro H. unfold startOf, JS.not.
  destruct (Qeq_bool q 0) eqn:E; [|reflexivity].
  apply Qeq_bool_eq in E. contradiction.
Qed.

Lemma draw_elapsed (timestamp : Q) (d : data) (w : world) :
  field elapsedTime (draw timestamp d w)
  = Some (JS.num (timestamp - startOf timestamp (startTime d))).
Proof.
  unfold draw.
  destruct (Qltb _ (totalDuration d)); [reflexivity|].
  destruct (onComplete d); reflexivity.
Qed.

(** X19. A running session whose pending frame is the one [data.rAF] names
    is paused at elapsed time [T] and resumed.  Pausing cancels the frame
    and keeps [elapsedTime]; resuming requests [adjustStartTime], which at
    its frame (timestamp [t1]) rebases [startTime] to [t1 - T] and requests
    [draw]; the elapsed time [draw] computes at the following frame
    (timestamp [t2]) is [T] plus the one frame interval [t2 - t1], however
    long the pause was. *)
Theorem pause_resume_continuity
        (w : world) (d : data) (h : handle) (T t1 t2 : Q) :
  store w = Some d ->
  paused d = false ->
  rAF d = Some h ->
  frames w = [(h, CbDraw)] ->
  elapsedTime d = JS.num T ->
  T < t1 ->
  exists w1 w2,
    pauseResume w = Ok w1 /\
    frames w1 = [] /\
    field paused w1 = Some true /\
    field elapsedTime w1 = Some (JS.num T) /\
    pauseResume w1 = Ok w2 /\
    frames w2 = [(nextHandle w, CbAdjustStartTime)] /\
    field paused w2 = Some false /\
    field startTime (frame t1 w2) = Some (JS.num (t1 - T)) /\
    field elapsedTime (frame t1 w2) = Some (JS.num T) /\
    frames (frame t1 w2) = [(S (nextHandle w), CbDraw)] /\
    field elapsedTime (frame t2 (frame t1 w2))
    = Some (JS.num (t2 - (t1 - T))) /\
    t2 - (t1 - T) == T + (t2 - t1).
Proof.
  intros Hst Hp Hr Hf He HT.
  destruct w as [st fr nh to ch os oc]. simpl in Hst, Hf. subst st fr.
  unfold pauseResume. cbn [store]. rewrite Hp. cbn [negb].
  eexists. eexists. split; [reflexivity|].
  rewrite Hr. cbn. rewrite Nat.eqb_refl. cbn.
  split; [reflexivity|]. split; [reflexivity|].
  split; [now rewrite He|]. split; [reflexivity|].
  split; [reflexivity|]. split; [reflexivity|].
  unfold frame, fire, adjustStartTime. cbn.
  rewrite He. cbn.
  split; [reflexivity|]. split; [reflexivity|]. split; [reflexivity|].
  split; [|ring].
  rewrite draw_elapsed. cbn [startTime set_startTime].
  rewrite startOf_running by lra. reflexivity.
Qed.

Lemma pause_resume_continuity_witness :
  exists w1 w2,
    pauseResume running = Ok w1 /\
    frames w1 = [] /\
    field paused w1 = Some true /\
    field elapsedTime w1 = Some (JS.num (1300 - 1000)) /\
    pauseResume w1 = Ok w2 /\
    frames w2 = [(nextHandle running, CbAdjustStartTime)] /\
    field paused w2 = Some false /\
    field startTime (frame 5000 w2) = Some (JS.num (5000 - (1300 - 1000))) /\
    field elapsedTime (frame 5000 w2) = Some (JS.num (1300 - 1000)) /\
    frames (frame 5000 w2) = [(S (nextHandle running), CbDraw)] /\
    field elapsedTime (frame 5016 (frame 5000 w2))
    = Some (JS.num (5016 - (5000 - (1300 - 1000)))) /\
    5016 - (5000 - (1300 - 1000)) == (1300 - 1000) + (5016 - 5000).
Proof.
  assert (Hst : store running = Some (dataOf running))
    by (vm_compute; reflexivity).
  assert (Hp : paused (dataOf running) = false)
    by (vm_compute; reflexivity).
  assert (Hr : rAF (dataOf running) = Some 2%nat)
    by (vm_compute; reflexivity).
  assert (Hf : frames running = [(2%nat, CbDraw)])
    by (vm_compute; reflexivity).
  assert (He : elapsedTime (dataOf running) = JS.num (1300 - 1000))
    by (vm_compute; reflexivity).
  assert (HT : 1300 - 1000 < 5000)
    by (vm_compute; reflexivity).
  exact (pause_resume_continuity running (dataOf running) 2%nat
           (1300 - 1000) 5000 5016 Hst Hp Hr Hf He HT).
Defined.

(** ** Erase *)

(** C10. [erase] sets [startTime] and [elapsedTime] to null, cancels the
    frame [data.rAF] names and empties the svg; every other field of the
    options object keeps its value, the paused flag among them.  So after
    an [erase] on a paused session the next [pauseResume] takes the resume
    branch: it clears the flag and requests a frame for
    [adjustStartTime]. *)
Theorem erase_keeps_paused (w : world) (d : data) :
  store w = Some d ->
  exists w',
    erase w = Ok w' /\
    store w' = Some (set_elapsedTime JS.null (set_startTime JS.null d)) /\
    field startTime w' = Some JS.null /\
    field elapsedTime w' = Some JS.null /\
    field paused w' = Some (paused d) /\
    field rAF w' = Some (rAF d) /\
    field paths w' = Some (paths d) /\
    field totalDuration w' = Some (totalDuration d) /\
    frames w' = frames (cancelAnimationFrame (rAF d) w) /\
    (forall n cb, rAF d = Some n -> ~ In (n, cb) (frames w')) /\
    (paused d = true ->
     exists w'',
       pauseResume w' = Ok w'' /\
       field paused w'' = Some false /\
       frames w'' = frames w' ++ [(nextHandle w', CbAdjustStartTime)]).
Proof.
  intro Hst. unfold erase, field. rewrite Hst.
  change (rAF (set_elapsedTime JS.null (set_startTime JS.null d)))
    with (rAF d).
  destruct (rAF d) as [n|] eqn:Hr.
  - eexists. split; [reflexivity|]. cbn. rewrite ?Hr.
    do 8 (split; [reflexivity|]). split.
    + intros m cb Hm Hin. injection Hm as <-.
      apply filter_In in Hin. destruct Hin as [_ Hneq].
      cbn in Hneq. rewrite Nat.eqb_refl in Hneq. discriminate.
    + intro Hp. unfold pauseResume. cbn. rewrite Hp. cbn.
      eexists. split; [reflexivity|]. split; reflexivity.
  - eexists. split; [reflexivity|]. cbn. rewrite ?Hr.
    do 8 (split; [reflexivity|]). split.
    + intros m cb Hm. discriminate.
    + intro Hp. unfold pauseResume. cbn. rewrite Hp. cbn.
      eexists. split; [reflexivity|]. split; reflexivity.
Qed.

Lemma erase_keeps_paused_witness :
  exists w' w'',
    erase pausedSession = Ok w' /\
    field startTime w' = Some JS.null /\
    field elapsedTime w' = Some JS.null /\
    field paused w' = Some true /\
    pauseResume w' = Ok w'' /\
    field paused w'' = Some false /\
    frames w'' = frames w' ++ [(nextHandle w', CbAdjustStartTime)].
Proof.
  assert (Hst : store pausedSession = Some (dataOf pausedSession))
    by (vm_compute; reflexivity).
  destruct (erase_keeps_paused pausedSession (dataOf pausedSession) Hst)
    as [w' [He [_ [Hs [Hel [Hp [_ [_ [_ [_ [_ Hres]]]]]]]]]]].
  destruct (Hres eq_refl) as [w'' [Hr [Hp' Hf]]].
  exists w', w''. repeat split; assumption.
Defined.

(** ** Painting twice, painting with bad options *)

Lemma schedule_hidden (d : data) :
  map strokeDashoffset (paths (schedule d)) = map length (paths (schedule d)).
Proof.
  unfold schedule, initLoop. cbn [paths set_schedule].
  now rewrite initLoop_offset, initLoop_length.
Qed.

Lemma paint_now (w : world) (d : data) :
  store w = Some d -> delay d = None -> paint w = Ok (init d w).
Proof. intros Hs Hd. unfold paint. now rewrite Hs, Hd. Qed.

(** C9, as the code has it.  [paint] on a session that is already running
    or paused (no delay configured) builds a new hidden path list and new
    totals from [svgData], appends its paths to the svg and requests one
    more frame, whose handle replaces [data.rAF].  Every request that was
    pending stays in the queue, and [startTime], [elapsedTime] and the
    paused flag keep their values. *)
Theorem paint_again_keeps_session (w : world) (d : data) :
  store w = Some d ->
  delay d = None ->
  exists w',
    paint w = Ok w' /\
    frames w' = frames w ++ [(nextHandle w, CbDraw)] /\
    field rAF w' = Some (Some (nextHandle w)) /\
    field startTime w' = Some (startTime d) /\
    field elapsedTime w' = Some (elapsedTime d) /\
    field paused w' = Some (paused d) /\
    field paths w' = Some (paths (schedule d)) /\
    map strokeDashoffset (paths (schedule d))
    = map sp_length (svgData d) /\
    field totalDuration w' = Some (totalDuration (schedule d)) /\
    svgChildren w' = (svgChildren w + List.length (svgData d))%nat.
Proof.
  intros Hs Hd. exists (init d w).
  split; [now apply paint_now|].
  split; [apply init_frames|].
  unfold field. rewrite init_store.
  do 5 (split; [reflexivity|]).
  split.
  { unfold schedule, initLoop. cbn [paths set_schedule].
    now rewrite initLoop_offset. }
  split; [reflexivity|].
  unfold init. cbn. destruct (onStart d); reflexivity.
Qed.

Lemma paint_again_keeps_session_witness :
  exists w',
    paint (frame 1100 (frame 1000 (painted (initialized oneStroke)))) = Ok w' /\
    frames w' = [(2%nat, CbDraw); (3%nat, CbDraw)] /\
    field startTime w' = Some (JS.num 1000) /\
    field elapsedTime w' = Some (JS.num (1100 - 1000)).
Proof.
  assert (Hst : store (frame 1100 (frame 1000 (painted (initialized oneStroke))))
                = Some (dataOf (frame 1100 (frame 1000
                                  (painted (initialized oneStroke))))))
    by (vm_compute; reflexivity).
  destruct (paint_again_keeps_session _ _ Hst eq_refl)
    as [w' [Hp [Hf [_ [Hs [He _]]]]]].
  exists w'. repeat split; assumption.
Defined.

(** The claim C9 as it is written fails.  [oneStroke] is painted, two
    frames run (1000 and 1100 ms) and [paint] is called again.  The frame
    the first session requested (handle 2) is still queued next to the new
    one (handle 3); [startTime] is still 1000; at the next frame (1200 ms)
    both callbacks run and both request another frame, and the elapsed time
    is 200 ms, not 0. *)
Lemma repaint_is_not_a_reset :
  frames repainted = [(2%nat, CbDraw); (3%nat, CbDraw)] /\
  field startTime repainted = Some (JS.num 1000) /\
  field elapsedTime (frame 1200 repainted) = Some (JS.num 200) /\
  frames (frame 1200 repainted) = [(4%nat, CbDraw); (5%nat, CbDraw)] /\
  svgChildren repainted = 2%nat.
Proof.
  repeat split; vm_compute; reflexivity.
Qed.

(** C8, as the code has it.  [paint] checks neither the speed multiplier
    nor the durations: on an element whose options are cached it returns
    normally; with no delay it stores the scaled durations [duration *
    speedMultiplier] whatever their sign and requests the first frame,
    with a delay it only sets the timeout. *)
Theorem paint_validates_nothing (w : world) (d : data) :
  store w = Some d ->
  exists w',
    paint w = Ok w' /\
    (delay d = None ->
     frames w' = frames w ++ [(nextHandle w, CbDraw)] /\
     field (fun d' => map duration (paths d')) w'
     = Some (map (fun s => sp_duration s * speedMultiplier d) (svgData d))) /\
    (forall ms, delay d = Some ms -> w' = setTimeout ms w).
Proof.
  intro Hs. unfold paint. rewrite Hs.
  destruct (delay d) as [ms|] eqn:Hd.
  - exists (setTimeout ms w). split; [reflexivity|]. split.
    + discriminate.
    + intros ms' H. now injection H as <-.
  - exists (init d w). split; [reflexivity|]. split.
    + intros _. split; [apply init_frames|].
      unfold field. rewrite init_store. cbn [option_map].
      f_equal. apply schedule_durations.
    + discriminate.
Qed.

Lemma paint_validates_nothing_witness :
  exists w',
    paint (initialized badOptions) = Ok w' /\
    frames w' = [(0%nat, CbDraw)] /\
    field (fun d' => map duration (paths d')) w'
    = Some [(-600) * (-1); 600 * (-1)].
Proof.
  destruct (paint_validates_nothing (initialized badOptions) badOptions eq_refl)
    as [w' [Hp [Hnow _]]].
  destruct (Hnow eq_refl) as [Hf Hd].
  exists w'. split; [exact Hp|]. split; [exact Hf | exact Hd].
Defined.

(** The claim C8 as it is written fails: with a speed multiplier of -1 and
    a duration of -600, [paint] throws nothing, stores the schedule and
    requests the first frame. *)
Lemma paint_accepts_bad_options :
  speedMultiplier badOptions <= 0 /\
  (forall e, paint (initialized badOptions) <> Throw e) /\
  frames (painted (initialized badOptions)) = [(0%nat, CbDraw)] /\
  field (fun d => map duration (paths d)) (painted (initialized badOptions))
  = Some [(-600) * (-1); 600 * (-1)].
Proof.
  split; [vm_compute; discriminate|].
  split; [intros e H; vm_compute in H; discriminate|].
  split; reflexivity.
Qed.

(** ** The last frame *)

(** When the elapsed time is not below [totalDuration], [draw] requests no
    frame and calls [onComplete], when there is one, once. *)
Lemma draw_last_frame (timestamp : Q) (d : data) (w : world) :
  totalDuration d <= timestamp - startOf timestamp (startTime d) ->
  frames (draw timestamp d w) = frames w /\
  onCompleteCalls (draw timestamp d w)
  = (if onComplete d then S (onCompleteCalls w) else onCompleteCalls w).
Proof.
  intro H. apply Qltb_ge in H. unfold draw. rewrite H.
  destruct (onComplete d); split; reflexivity.
Qed.

(** C6 at its failing input.  [oneStroke] (600 ms, length 100) is painted
    and frames run at 1000, 1300 and 1600 ms.  At the third frame the
    elapsed time is exactly [totalDuration]: no frame is requested and
    [onComplete] has run once, but the stroke keeps the offset of the
    frame before, half of it is visible. *)
Lemma exact_finish_leaves_half :
  field elapsedTime exactFinish = Some (JS.num 600) /\
  field totalDuration exactFinish = Some 600 /\
  frames exactFinish = [] /\
  onCompleteCalls exactFinish = 1%nat /\
  (exists o, map strokeDashoffset (paths (dataOf exactFinish)) = [o] /\
             o == 50) /\
  (exists f, map visibleFraction (paths (dataOf exactFinish)) = [f] /\
             f == 1 # 2) /\
  paths (dataOf exactFinish) = paths (dataOf running).
Proof.
  split; [vm_compute; reflexivity|].
  split; [vm_compute; reflexivity|].
  split; [vm_compute; reflexivity|].
  split; [vm_compute; reflexivity|].
  split; [exists (30000 # 600); split; vm_compute; reflexivity|].
  split; [|vm_compute; reflexivity].
  eexists. split; [vm_compute; reflexivity | vm_compute; reflexivity].
Qed.

Lemma visible_fraction_monotone_witness :
  (forall es,
      0 <= visibleFraction
             (render true false es (mkPathObj 600 0 100 (100, 100) 100)) <= 1) /\
  visibleFraction (render true false [150] (mkPathObj 600 0 100 (100, 100) 100))
  <= visibleFraction
       (render true false ([150] ++ [300]) (mkPathObj 600 0 100 (100, 100) 100)).
Proof.
  assert (Hlen : 0 <= length (mkPathObj 600 0 100 (100, 100) 100))
    by (vm_compute; discriminate).
  assert (Hhid : strokeDashoffset (mkPathObj 600 0 100 (100, 100) 100)
                 == length (mkPathObj 600 0 100 (100, 100) 100))
    by reflexivity.
  destruct (visible_fraction_monotone true false
              (mkPathObj 600 0 100 (100, 100) 100) Hlen Hhid) as [Hb Hm].
  split; [exact Hb|].
  apply (Hm 0 [150] 300).
  simpl. repeat split; vm_compute; discriminate.
Defined.

(** ** More on the frame step *)

(** X1. Running the loop of [draw] twice at the same elapsed time leaves
    the strokes as running it once: what a frame writes depends on the
    elapsed time alone. *)
Theorem drawPaths_idempotent (sequential globalRev : bool) (e : Q)
        (ss : list strokepath) :
  forall ps,
    drawPaths sequential globalRev e ss
              (drawPaths sequential globalRev e ss ps)
    = drawPaths sequential globalRev e ss ps.
Proof.
  assert (Hone : forall rev p,
             drawPath sequential rev e (drawPath sequential rev e p)
             = drawPath sequential rev e p).
  { intros rev p. unfold drawPath at 1.
    rewrite drawPath_elapsed.
    destruct (drawPath_shape sequential rev e p) as [Hd [_ Hl]].
    rewrite Hd, Hl. unfold drawPath.
    destruct (Qltb _ (duration p) && Qltb 0 _);
      [destruct rev; reflexivity|].
    destruct (Qltb (duration p) _); reflexivity. }
  induction ss as [|s ss IH]; intros [|p ps]; try reflexivity.
  simpl. now rewrite Hone, IH.
Qed.


Lemma drawPaths_untouched (sequential globalRev : bool) (e : Q) :
  forall ss ps,
    Forall (fun p => pathElapsedTime sequential e p <= 0 /\
                     pathElapsedTime sequential e p <= duration p) ps ->
    drawPaths sequential globalRev e ss ps = ps.
Proof.
  intros ss ps. revert ss.
  induction ps as [|p ps IH]; intros [|s ss] Hall; try reflexivity.
  inversion Hall; subst. simpl.
  rewrite drawPath_untouched by (right; assumption).
  now rewrite IH.
Qed.

Lemma drawPaths_shape (sequential globalRev : bool) (e : Q) :
  forall ss ps,
    map duration (drawPaths sequential globalRev e ss ps) = map duration ps /\
    map drawStartTime (drawPaths sequential globalRev e ss ps)
    = map drawStartTime ps /\
    map length (drawPaths sequential globalRev e ss ps) = map length ps.
Proof.
  intros ss ps. revert ss.
  induction ps as [|p ps IH]; intros [|s ss]; try (repeat split; reflexivity).
  simpl. destruct (IH ss) as [-> [-> ->]].
  destruct (drawPath_shape sequential (globalRev || sp_reverse s) e p)
    as [-> [-> ->]].
  repeat split.
Qed.


(** ** Where the intervals of a schedule lie *)

Lemma sumFrom_ge (l : list Q) :
  Forall (fun x => 0 <= x) l -> forall s, s <= sumFrom s l.
Proof.
  unfold sumFrom. induction 1 as [|y l Hy Hl IH]; intro s; simpl.
  - lra.
  - specialize (IH (s + y)). lra.
Qed.

Lemma offsetsFrom_end (l : list Q) :
  Forall (fun x => 0 <= x) l ->
  forall s i a x,
    nth_error (offsetsFrom s l) i = Some a ->
    nth_error l i = Some x ->
    a + x <= sumFrom s l.
Proof.
  induction 1 as [|y l Hy Hl IH]; intros s i a x Ha Hx.
  - destruct i; discriminate.
  - destruct i as [|i]; simpl in Ha, Hx.
    + injection Ha as <-. injection Hx as <-.
      exact (sumFrom_ge l Hl (s + y)).
    + exact (IH (s + y) i a x Ha Hx).
Qed.

Lemma countdown_ge (l : list Q) :
  Forall (fun x => 0 <= x) l ->
  forall r i a,
    nth_error (countdown r l) i = Some a ->
    r - sumFrom 0 l <= a.
Proof.
  induction 1 as [|y l Hy Hl IH]; intros r i a Ha.
  - destruct i; discriminate.
  - change (sumFrom 0 (y :: l)) with (sumFrom (0 + y) l).
    rewrite sumFrom_shift.
    destruct i as [|i]; simpl in Ha.
    + injection Ha as <-. pose proof (sumFrom_ge l Hl 0). lra.
    + apply IH in Ha. lra.
Qed.

Lemma countdown_disjoint (l : list Q) :
  Forall (fun x => 0 <= x) l ->
  forall r i j a b y,
    (i < j)%nat ->
    nth_error (countdown r l) i = Some a ->
    nth_error (countdown r l) j = Some b ->
    nth_error l j = Some y ->
    b + y <= a.
Proof.
  induction 1 as [|x l Hx Hl IH]; intros r i j a b y Hij Ha Hb Hy.
  - destruct i; discriminate.
  - destruct j as [|j]; [lia|].
    destruct i as [|i]; simpl in Ha, Hb, Hy.
    + injection Ha as <-.
      exact (countdown_end l Hl (r - x) j b y Hb Hy).
    + apply (IH (r - x) i j a b y); try assumption. lia.
Qed.

Lemma scaled_nonneg (d : data) :
  (forall s, In s (svgData d) -> 0 <= sp_duration s * speedMultiplier d) ->
  Forall (fun x => 0 <= x) (map (scaled d) (svgData d)).
Proof.
  intro H. apply Forall_forall. intros x Hx.
  apply in_map_iff in Hx. destruct Hx as [s [<- Hs]]. apply H, Hs.
Qed.

Lemma schedule_entry (d : data) (i : nat) (p : pathObj) :
  nth_error (paths (schedule d)) i = Some p ->
  nth_error (map (scaled d) (svgData d)) i = Some (duration p) /\
  nth_error (map drawStartTime (paths (schedule d))) i
  = Some (drawStartTime p).
Proof.
  intro Hp. split.
  - rewrite <- schedule_durations. now apply map_nth_error.
  - now apply map_nth_error.
Qed.

(** Every interval of a schedule with non-negative durations starts at or
    after 0 and ends at or before the sum of the durations; no duration
    exceeds the longest one. *)
Lemma schedule_ends (d : data) (i : nat) (p : pathObj) :
  (forall s, In s (svgData d) -> 0 <= sp_duration s * speedMultiplier d) ->
  nth_error (paths (schedule d)) i = Some p ->
  0 <= duration p /\
  0 <= drawStartTime p /\
  drawStartTime p + duration p <= playhead (schedule d) /\
  duration p <= longestDuration (schedule d).
Proof.
  intros Hpos Hp. apply scaled_nonneg in Hpos.
  destruct (schedule_entry d i p Hp) as [Hd Hs].
  rewrite schedule_playhead, schedule_longest.
  split.
  { rewrite Forall_forall in Hpos. apply Hpos. eapply nth_error_In, Hd. }
  destruct (reverse d) eqn:Hrev.
  - rewrite schedule_reverse in Hs by assumption.
    split.
    + apply countdown_ge in Hs; [|assumption].
      rewrite sumDurations_sumFrom in Hs. lra.
    + split.
      * rewrite <- sumDurations_sumFrom.
        eapply countdown_end; eassumption.
      * destruct (longestFrom_upper (map (scaled d) (svgData d)) 0) as [_ Hup].
        rewrite Forall_forall in Hup. apply Hup. eapply nth_error_In, Hd.
  - rewrite schedule_forward in Hs by assumption.
    split.
    + eapply offsetsFrom_ge; eassumption.
    + split.
      * eapply offsetsFrom_end; eassumption.
      * destruct (longestFrom_upper (map (scaled d) (svgData d)) 0) as [_ Hup].
        rewrite Forall_forall in Hup. apply Hup. eapply nth_error_In, Hd.
Qed.



(** X3. Sequential mode, non-negative scaled durations: strokes are swept
    one at a time.  Forward, as soon as a later stroke has started every
    earlier one has reached the end of its duration; with the global
    reverse flag it is the other way round. *)
Theorem sequential_one_at_a_time
        (d : data) (e : Q) (i j : nat) (p q : pathObj) :
  (forall s, In s (svgData d) -> 0 <= sp_duration s * speedMultiplier d) ->
  (i < j)%nat ->
  nth_error (paths (schedule d)) i = Some p ->
  nth_error (paths (schedule d)) j = Some q ->
  if reverse d
  then 0 < pathElapsedTime true e p -> duration q <= pathElapsedTime true e q
  else 0 < pathElapsedTime true e q -> duration p <= pathElapsedTime true e p.
Proof.
  intros Hpos Hij Hp Hq.
  destruct (schedule_ends d i p Hpos Hp) as [Hdp _].
  destruct (schedule_ends d j q Hpos Hq) as [Hdq _].
  destruct (schedule_entry d i p Hp) as [Hpd Hps].
  destruct (schedule_entry d j q Hq) as [Hqd Hqs].
  apply scaled_nonneg in Hpos.
  unfold pathElapsedTime.
  destruct (reverse d) eqn:Hrev.
  - rewrite schedule_reverse in Hps, Hqs by assumption.
    pose proof (countdown_disjoint _ Hpos _ i j _ _ _ Hij Hps Hqs Hqd) as Hdis.
    destruct (Qltb (e - drawStartTime p) 0) eqn:E1;
      destruct (Qltb (e - drawStartTime q) 0) eqn:E2; qcases; lra.
  - rewrite schedule_forward in Hps, Hqs by assumption.
    pose proof (offsetsFrom_disjoint _ Hpos _ i j _ _ _ Hij Hps Hpd Hqs) as Hdis.
    destruct (Qltb (e - drawStartTime p) 0) eqn:E1;
      destruct (Qltb (e - drawStartTime q) 0) eqn:E2; qcases; lra.
Qed.

Lemma sequential_one_at_a_time_witness :
  duration (nth 0 (paths (schedule (defaults threeStrokes)))
                (mkPathObj 0 0 0 (0, 0) 0))
  <= pathElapsedTime true 1300
       (nth 0 (paths (schedule (defaults threeStrokes)))
            (mkPathObj 0 0 0 (0, 0) 0)).
Proof.
  assert (Hpos : forall s, In s (svgData (defaults threeStrokes)) ->
                           0 <= sp_duration s
                                * speedMultiplier (defaults threeStrokes)).
  { intros s [<- | [<- | [<- | []]]]; vm_compute; discriminate. }
  assert (Hij : (0 < 2)%nat) by lia.
  assert (Hstarted : 0 < pathElapsedTime true 1300
                           (nth 2 (paths (schedule (defaults threeStrokes)))
                                (mkPathObj 0 0 0 (0, 0) 0)))
    by (vm_compute; reflexivity).
  exact (sequential_one_at_a_time (defaults threeStrokes) 1300 0 2
           (nth 0 (paths (schedule (defaults threeStrokes)))
                (mkPathObj 0 0 0 (0, 0) 0))
           (nth 2 (paths (schedule (defaults threeStrokes)))
                (mkPathObj 0 0 0 (0, 0) 0))
           Hpos Hij eq_refl eq_refl Hstarted).
Defined.

Lemma longest_le_sum (l : list Q) :
  Forall (fun x => 0 <= x) l ->
  forall m s, 0 <= m -> m <= s -> longestFrom m l <= sumFrom s l.
Proof.
  unfold longestFrom, sumFrom.
  induction 1 as [|x l Hx Hl IH]; intros m s Hm Hms; simpl.
  - exact Hms.
  - destruct (Qltb m x) eqn:E; qcases; apply IH; lra.
Qed.

(** X4. With non-negative scaled durations the parallel timeline of a list
    of strokes is never longer than its sequential timeline. *)
Theorem parallel_never_longer (d : data) :
  (forall s, In s (svgData d) -> 0 <= sp_duration s * speedMultiplier d) ->
  totalDuration (schedule (set_options false (reverse d) (speedMultiplier d) d))
  <= totalDuration (schedule (set_options true (reverse d) (speedMultiplier d) d)).
Proof.
  intro Hpos. apply scaled_nonneg in Hpos.
  rewrite !schedule_total.
  cbn [drawSequential set_options].
  rewrite schedule_longest, schedule_playhead.
  apply longest_le_sum; [exact Hpos | lra | lra].
Qed.

Lemma parallel_never_longer_witness :
  totalDuration (schedule (set_options false false 1 (defaults threeStrokes)))
  <= totalDuration (schedule (set_options true false 1 (defaults threeStrokes))).
Proof.
  refine (parallel_never_longer (defaults threeStrokes) _).
  intros s [<- | [<- | [<- | []]]]; vm_compute; discriminate.
Defined.

(** X5. The direction of the sweep does not change how much of a stroke a
    frame shows: drawn with the reverse flag or without it, the visible
    length is the same; in the middle of the sweep the two offsets are
    opposite numbers. *)
Theorem direction_agnostic (sequential : bool) (e : Q) (p : pathObj) :
  0 <= length p ->
  visibleLength (drawPath sequential true e p)
  == visibleLength (drawPath sequential false e p) /\
  (sweeping sequential e p ->
   strokeDashoffset (drawPath sequential true e p)
   == - strokeDashoffset (drawPath sequential false e p)).
Proof.
  intro Hlen. unfold sweeping, drawPath.
  set (t := pathElapsedTime sequential e p).
  destruct (Qltb t (duration p) && Qltb 0 t) eqn:E1.
  - qcases.
    destruct (share_bounds t (duration p) (length p)) as [Hb _]; try assumption.
    split.
    + rewrite (visibleLength_sweep true p _ Hb).
      rewrite (visibleLength_sweep false p _ Hb). reflexivity.
    + intros _. cbn [strokeDashoffset set_strokeDashoffset]. ring.
  - split.
    + destruct (Qltb (duration p) t); reflexivity.
    + intros [H0 H1]. qcases.
      destruct E1 as [E | E]; apply Qltb_ge in E; lra.
Qed.

Lemma direction_agnostic_witness :
  visibleLength (drawPath true true 300 (mkPathObj 600 0 100 (100, 100) 100))
  == visibleLength (drawPath true false 300 (mkPathObj 600 0 100 (100, 100) 100)).
Proof.
  refine (proj1 (direction_agnostic true 300
                   (mkPathObj 600 0 100 (100, 100) 100) _)).
  vm_compute. discriminate.
Defined.

Lemma drawPath_linear_witness :
  visibleFraction (drawPath true false 150 (mkPathObj 600 0 100 (100, 100) 100))
  == pathElapsedTime true 150 (mkPathObj 600 0 100 (100, 100) 100) / 600.
Proof.
  assert (Hlen : 0 < length (mkPathObj 600 0 100 (100, 100) 100))
    by (vm_compute; reflexivity).
  refine (proj1 (drawPath_linear true false 150
                   (mkPathObj 600 0 100 (100, 100) 100) Hlen) _).
  split; vm_compute; reflexivity.
Defined.

(** ** Sessions *)

Lemma draw_cases (timestamp : Q) (d : data) (w : world) :
  (timestamp - startOf timestamp (startTime d) < totalDuration d /\
   draw timestamp d w
   = mkWorld (Some (set_rAF (Some (nextHandle w)) (drawnData timestamp d)))
             (frames w ++ [(nextHandle w, CbDraw)]) (S (nextHandle w))
             (timeouts w) (svgChildren w) (onStartCalls w) (onCompleteCalls w))
  \/
  (totalDuration d <= timestamp - startOf timestamp (startTime d) /\
   draw timestamp d w
   = mkWorld (Some (drawnData timestamp d)) (frames w) (nextHandle w)
             (timeouts w) (svgChildren w) (onStartCalls w)
             (if onComplete d then S (onCompleteCalls w)
              else onCompleteCalls w)).
Proof.
  unfold draw.
  destruct (Qltb (timestamp - startOf timestamp (startTime d))
                 (totalDuration d)) eqn:E.
  - left. apply Qltb_lt in E. split; [exact E | reflexivity].
  - right. apply Qltb_ge in E. split; [exact E|].
    destruct (onComplete d); reflexivity.
Qed.

Lemma sameSchedule_refl (d : data) : sameSchedule d d.
Proof. repeat split. Qed.

Lemma sameSchedule_trans (d d' d'' : data) :
  sameSchedule d d' -> sameSchedule d' d'' -> sameSchedule d d''.
Proof.
  unfold sameSchedule. intros H1 H2.
  repeat match goal with H : _ /\ _ |- _ => destruct H end.
  repeat split; congruence.
Qed.

Lemma drawnData_same (timestamp : Q) (d : data) :
  sameSchedule d (drawnData timestamp d).
Proof.
  unfold sameSchedule, drawnData. cbn.
  destruct (drawPaths_shape (drawSequential d) (reverse d)
              (timestamp - startOf timestamp (startTime d))
              (svgData d) (paths d)) as [-> [-> ->]].
  repeat split.
Qed.

Lemma fire_same (timestamp : Q) (cb : callback) (w : world) (d : data) :
  store w = Some d ->
  exists d', store (fire timestamp cb w) = Some d' /\ sameSchedule d d'.
Proof.
  intro Hs. unfold fire. rewrite Hs. destruct cb.
  - destruct (draw_cases timestamp d w) as [[_ ->] | [_ ->]]; cbn [store].
    + eexists. split; [reflexivity|].
      eapply sameSchedule_trans; [apply (drawnData_same timestamp)|].
      repeat split.
    + eexists. split; [reflexivity|]. apply drawnData_same.
  - eexists. split; [reflexivity|]. repeat split.
Qed.

Lemma frame_same (timestamp : Q) (w : world) (d : data) :
  store w = Some d ->
  exists d', store (frame timestamp w) = Some d' /\ sameSchedule d d'.
Proof.
  intro Hs. unfold frame.
  set (w0 := mkWorld (store w) [] (nextHandle w) (timeouts w) (svgChildren w)
                     (onStartCalls w) (onCompleteCalls w)).
  assert (H0 : exists d', store w0 = Some d' /\ sameSchedule d d')
    by (exists d; split; [exact Hs | apply sameSchedule_refl]).
  clearbody w0. revert w0 H0.
  induction (frames w) as [|c l IH]; intros w0 [d0 [Hs0 Hsame]]; simpl.
  - exists d0. split; assumption.
  - apply IH.
    destruct (fire_same timestamp (snd c) w0 d0 Hs0) as [d1 [Hs1 Hsame1]].
    exists d1. split; [exact Hs1|].
    eapply sameSchedule_trans; eassumption.
Qed.

(** X6. Display frames never touch the schedule or the options: whatever
    callbacks are pending and however many frames run, the segment list,
    the mode, speed and direction options, the callbacks, the scaled
    durations, start offsets and lengths of the paths, [totalDuration] and
    the paused flag stay as they were. *)
Theorem frames_keep_schedule (ts : list Q) :
  forall (w : world) (d : data),
    store w = Some d ->
    exists d', store (play ts w) = Some d' /\ sameSchedule d d'.
Proof.
  unfold play.
  induction ts as [|t ts IH]; intros w d Hs; simpl.
  - exists d. split; [exact Hs | apply sameSchedule_refl].
  - destruct (frame_same t w d Hs) as [d1 [Hs1 Hsame1]].
    destruct (IH _ _ Hs1) as [d2 [Hs2 Hsame2]].
    exists d2. split; [exact Hs2|].
    eapply sameSchedule_trans; eassumption.
Qed.

Lemma frames_keep_schedule_witness :
  exists d',
    store (play [1000; 1300; 1600] (painted (initialized oneStroke))) = Some d' /\
    sameSchedule (dataOf (painted (initialized oneStroke))) d'.
Proof.
  apply frames_keep_schedule. vm_compute. reflexivity.
Defined.

Lemma frame_one_draw (timestamp : Q) (w : world) (d : data) (h : handle) :
  store w = Some d ->
  frames w = [(h, CbDraw)] ->
  frame timestamp w
  = draw timestamp d
         (mkWorld (store w) [] (nextHandle w) (timeouts w) (svgChildren w)
                  (onStartCalls w) (onCompleteCalls w)).
Proof.
  intros Hs Hf. unfold frame. rewrite Hf. cbn [fold_left snd].
  unfold fire. cbn [store]. now rewrite Hs.
Qed.

Lemma frame_idle (timestamp : Q) (w : world) :
  frames w = [] -> frame timestamp w = w.
Proof.
  intro Hf. unfold frame. rewrite Hf. destruct w. simpl in Hf. now subst.
Qed.

Lemma play_idle (ts : list Q) (w : world) :
  frames w = [] -> play ts w = w.
Proof.
  intro Hf. unfold play. induction ts as [|t ts IH]; simpl.
  - reflexivity.
  - now rewrite frame_idle.
Qed.

(** X7. One call of [paint] on an idle element (no delay) runs one frame
    loop: after any number of display frames either one [draw] request is
    pending, it is the one [data.rAF] names and [onComplete] has not run,
    or nothing is pending and [onComplete], when there is one, has run
    exactly once. *)
Theorem one_paint_one_loop (ts : list Q) (w : world) (d : data) :
  store w = Some d ->
  frames w = [] ->
  delay d = None ->
  (frames (play ts (painted w)) = [] /\
   onCompleteCalls (play ts (painted w))
   = (if onComplete d then S (onCompleteCalls w) else onCompleteCalls w))
  \/
  (exists h,
      frames (play ts (painted w)) = [(h, CbDraw)] /\
      field rAF (play ts (painted w)) = Some (Some h) /\
      onCompleteCalls (play ts (painted w)) = onCompleteCalls w).
Proof.
  intros Hs Hf Hd.
  assert (Hinv : exists d' h,
             store (painted w) = Some d' /\ onComplete d' = onComplete d /\
             frames (painted w) = [(h, CbDraw)] /\ rAF d' = Some h /\
             onCompleteCalls (painted w) = onCompleteCalls w).
  { unfold painted. rewrite (paint_now w d Hs Hd).
    exists (set_rAF (Some (nextHandle w)) (schedule d)), (nextHandle w).
    split; [apply init_store|]. split; [reflexivity|].
    split; [rewrite init_frames, Hf; reflexivity|].
    split; [reflexivity|].
    unfold init. cbn. destruct (onStart d); reflexivity. }
  generalize dependent (painted w). clear Hs Hf Hd.
  induction ts as [|t ts IH]; intros w1 [d' [h [Hs [Hc [Hf [Hr Hn]]]]]].
  - right. exists h. unfold field. cbn [play fold_left].
    rewrite Hs. cbn. now rewrite Hr.
  - change (play (t :: ts) w1) with (play ts (frame t w1)).
    rewrite (frame_one_draw t w1 d' h Hs Hf).
    destruct (draw_cases t d'
                (mkWorld (store w1) [] (nextHandle w1) (timeouts w1)
                         (svgChildren w1) (onStartCalls w1)
                         (onCompleteCalls w1))) as [[_ ->] | [_ ->]].
    + apply IH. eexists. eexists.
      split; [reflexivity|]. split; [exact Hc|].
      split; [reflexivity|]. split; [reflexivity | exact Hn].
    + left. rewrite play_idle by reflexivity. cbn.
      split; [reflexivity|]. now rewrite Hc, Hn.
Qed.

Lemma one_paint_one_loop_witness :
  (frames (play [1000; 1300; 1700] (painted (initialized oneStroke))) = [] /\
   onCompleteCalls (play [1000; 1300; 1700] (painted (initialized oneStroke)))
   = 1%nat)
  \/
  (exists h,
      frames (play [1000; 1300; 1700] (painted (initialized oneStroke)))
      = [(h, CbDraw)] /\
      field rAF (play [1000; 1300; 1700] (painted (initialized oneStroke)))
      = Some (Some h) /\
      onCompleteCalls (play [1000; 1300; 1700] (painted (initialized oneStroke)))
      = 0%nat).
Proof.
  exact (one_paint_one_loop [1000; 1300; 1700] (initialized oneStroke)
           oneStroke eq_refl eq_refl eq_refl).
Defined.

Lemma startOf_unset (timestamp : Q) (v : JS.value) :
  JS.not v = true -> startOf timestamp v = timestamp.
Proof.
  intro H. destruct v; try reflexivity.
  unfold startOf. now rewrite H.
Qed.

(** X8. The first frame of a session only starts the clock.  When
    [startTime] is unset (undefined, null after [erase], or 0) [draw] takes
    its own timestamp as the start, computes the elapsed time [t - t] and,
    the durations and start offsets being non-negative, changes no
    stroke. *)
Theorem first_frame_starts_clock (timestamp : Q) (d : data) (w : world) :
  JS.not (startTime d) = true ->
  Forall (fun p => 0 <= duration p /\ 0 <= drawStartTime p) (paths d) ->
  field startTime (draw timestamp d w) = Some (JS.num timestamp) /\
  field elapsedTime (draw timestamp d w)
  = Some (JS.num (timestamp - timestamp)) /\
  field paths (draw timestamp d w) = Some (paths d).
Proof.
  intros Hnot Hall.
  assert (Hdata : drawnData timestamp d
                  = set_paths (paths d)
                      (set_elapsedTime (JS.num (timestamp - timestamp))
                         (set_startTime (JS.num timestamp) d))).
  { unfold drawnData. rewrite (startOf_unset timestamp _ Hnot).
    rewrite drawPaths_untouched; [reflexivity|].
    eapply Forall_impl; [|exact Hall].
    intros p [Hd Hs]. unfold pathElapsedTime.
    destruct (drawSequential d).
    - destruct (Qltb (timestamp - timestamp - drawStartTime p) 0) eqn:E;
        qcases; lra.
    - lra. }
  unfold field.
  destruct (draw_cases timestamp d w) as [[_ ->] | [_ ->]];
    cbn [store option_map]; rewrite Hdata; repeat split.
Qed.

Lemma first_frame_starts_clock_witness :
  field startTime (frame 1000 (painted (initialized oneStroke)))
  = Some (JS.num 1000) /\
  field paths (draw 1000 (dataOf (painted (initialized oneStroke)))
                    (painted (initialized oneStroke)))
  = Some (paths (dataOf (painted (initialized oneStroke)))).
Proof.
  split; [vm_compute; reflexivity|].
  refine (proj2 (proj2 (first_frame_starts_clock 1000
                          (dataOf (painted (initialized oneStroke)))
                          (painted (initialized oneStroke)) eq_refl _))).
  repeat constructor; vm_compute; discriminate.
Defined.



(** ** Pausing, erasing and painting again *)

(** X10. A session paused while its pending frame is the one [data.rAF]
    names is frozen: however many display frames pass, the options object
    (clock and strokes included) is the one the pause left and nothing is
    requested. *)
Theorem paused_session_is_frozen
        (ts : list Q) (w : world) (d : data) (h : handle) :
  store w = Some d ->
  paused d = false ->
  rAF d = Some h ->
  frames w = [(h, CbDraw)] ->
  exists w1,
    pauseResume w = Ok w1 /\
    store w1 = Some (set_paused true d) /\
    play ts w1 = w1 /\
    frames (play ts w1) = [].
Proof.
  intros Hs Hp Hr Hf.
  destruct w as [st fr nh to ch os oc]. simpl in Hs, Hf. subst st fr.
  unfold pauseResume. cbn [store]. rewrite Hp. cbn [negb].
  eexists. split; [reflexivity|].
  cbn [rAF set_paused]. rewrite Hr. cbn. rewrite Nat.eqb_refl. cbn.
  split; [reflexivity|].
  rewrite play_idle by reflexivity. split; reflexivity.
Qed.

Lemma paused_session_is_frozen_witness :
  exists w1,
    pauseResume running = Ok w1 /\
    store w1 = Some (set_paused true (dataOf running)) /\
    play [5000; 5016; 5033] w1 = w1 /\
    frames (play [5000; 5016; 5033] w1) = [].
Proof.
  assert (Hst : store running = Some (dataOf running))
    by (vm_compute; reflexivity).
  assert (Hp : paused (dataOf running) = false) by (vm_compute; reflexivity).
  assert (Hr : rAF (dataOf running) = Some 2%nat) by (vm_compute; reflexivity).
  assert (Hf : frames running = [(2%nat, CbDraw)]) by (vm_compute; reflexivity).
  exact (paused_session_is_frozen [5000; 5016; 5033] running (dataOf running)
           2%nat Hst Hp Hr Hf).
Defined.

(** X11. The requests made while resuming are not recorded in [data.rAF],
    so a pause that comes within two display frames of a resume stops
    nothing.  Paused again before any frame, the [adjustStartTime] request
    stays pending; paused again after one frame, the [draw] request stays
    pending; in both cases the paused flag is set. *)
Theorem pause_after_resume_stops_nothing (t1 : Q) (w : world) (d : data) :
  store w = Some d ->
  paused d = true ->
  frames w = [] ->
  (forall h, rAF d = Some h -> (h < nextHandle w)%nat) ->
  exists w1 w2 w3,
    pauseResume w = Ok w1 /\
    pauseResume w1 = Ok w2 /\
    field paused w2 = Some true /\
    frames w2 = [(nextHandle w, CbAdjustStartTime)] /\
    pauseResume (frame t1 w1) = Ok w3 /\
    field paused w3 = Some true /\
    frames w3 = [(S (nextHandle w), CbDraw)].
Proof.
  intros Hs Hp Hf Hold.
  destruct w as [st fr nh to ch os oc]. simpl in Hs, Hf, Hold. subst st fr.
  destruct d as [sv sq sm rv dl on oc' ps lg ph td rf stt el pa].
  simpl in Hp, Hold. subst pa.
  destruct rf as [h|].
  - specialize (Hold h eq_refl).
    assert (E1 : (nh =? h)%nat = false) by (apply Nat.eqb_neq; lia).
    eexists. eexists. eexists.
    split; [reflexivity|].
    unfold pauseResume, field, frame, fire, adjustStartTime. cbn.
    rewrite E1. cbn.
    destruct h as [|m]; cbn.
    + repeat (split; [reflexivity|]). reflexivity.
    + assert (E2 : (nh =? m)%nat = false) by (apply Nat.eqb_neq; lia).
      rewrite E2. cbn.
      repeat (split; [reflexivity|]). reflexivity.
  - eexists. eexists. eexists.
    split; [reflexivity|].
    unfold pauseResume, field, frame, fire, adjustStartTime. cbn.
    repeat (split; [reflexivity|]). reflexivity.
Qed.

Lemma pause_after_resume_stops_nothing_witness :
  exists w1 w2 w3,
    pauseResume pausedSession = Ok w1 /\
    pauseResume w1 = Ok w2 /\
    field paused w2 = Some true /\
    frames w2 = [(nextHandle pausedSession, CbAdjustStartTime)] /\
    pauseResume (frame 5000 w1) = Ok w3 /\
    field paused w3 = Some true /\
    frames w3 = [(S (nextHandle pausedSession), CbDraw)].
Proof.
  assert (Hst : store pausedSession = Some (dataOf pausedSession))
    by (vm_compute; reflexivity).
  assert (Hp : paused (dataOf pausedSession) = true)
    by (vm_compute; reflexivity).
  assert (Hf : frames pausedSession = []) by (vm_compute; reflexivity).
  assert (Hold : forall h, rAF (dataOf pausedSession) = Some h ->
                           (h < nextHandle pausedSession)%nat).
  { intros h Hh. vm_compute in Hh. injection Hh as <-. vm_compute. lia. }
  exact (pause_after_resume_stops_nothing 5000 pausedSession
           (dataOf pausedSession) Hst Hp Hf Hold).
Defined.

Lemma erase_running (w : world) (d : data) (h : handle) (cb : callback) :
  store w = Some d ->
  rAF d = Some h ->
  frames w = [(h, cb)] ->
  erase w
  = Ok (mkWorld (Some (set_elapsedTime JS.null (set_startTime JS.null d)))
                [] (nextHandle w) (timeouts w) 0%nat
                (onStartCalls w) (onCompleteCalls w)).
Proof.
  intros Hs Hr Hf.
  destruct w as [st fr nh to ch os oc]. simpl in Hs, Hf. subst st fr.
  destruct d as [sv sq sm rv dl on oc' ps lg ph td rf stt el pa].
  simpl in Hr. subst rf.
  unfold erase. cbn. now rewrite Nat.eqb_refl.
Qed.

Lemma init_svgChildren (d : data) (w : world) :
  svgChildren (init d w) = (svgChildren w + List.length (svgData d))%nat.
Proof. unfold init. cbn. destruct (onStart d); reflexivity. Qed.

Lemma draw_clock (timestamp : Q) (d : data) (w : world) :
  JS.not (startTime d) = true ->
  field startTime (draw timestamp d w) = Some (JS.num timestamp) /\
  field elapsedTime (draw timestamp d w)
  = Some (JS.num (timestamp - timestamp)).
Proof.
  intro Hnot. rewrite draw_elapsed, (startOf_unset timestamp _ Hnot).
  split; [|reflexivity]. unfold field.
  destruct (draw_cases timestamp d w) as [[_ ->] | [_ ->]];
    cbn [store option_map]; unfold drawnData;
    rewrite (startOf_unset timestamp _ Hnot); reflexivity.
Qed.

(** X12. [erase] followed by [paint] restarts a running session cleanly:
    the pending frame is cancelled, the svg holds the new paths only, one
    [draw] request is pending, and the first frame takes its own timestamp
    as the start, so the elapsed time starts from [t - t] again. *)
Theorem erase_then_paint_restarts
        (timestamp : Q) (w : world) (d : data) (h : handle) :
  store w = Some d ->
  rAF d = Some h ->
  frames w = [(h, CbDraw)] ->
  delay d = None ->
  exists w1 w2,
    erase w = Ok w1 /\
    frames w1 = [] /\
    svgChildren w1 = 0%nat /\
    paint w1 = Ok w2 /\
    frames w2 = [(nextHandle w, CbDraw)] /\
    svgChildren w2 = List.length (svgData d) /\
    field paths w2 = Some (paths (schedule d)) /\
    field startTime (frame timestamp w2) = Some (JS.num timestamp) /\
    field elapsedTime (frame timestamp w2)
    = Some (JS.num (timestamp - timestamp)).
Proof.
  intros Hs Hr Hf Hd.
  set (d1 := set_elapsedTime JS.null (set_startTime JS.null d)).
  set (w1 := mkWorld (Some d1) [] (nextHandle w) (timeouts w) 0%nat
                     (onStartCalls w) (onCompleteCalls w)).
  exists w1, (init d1 w1).
  split; [exact (erase_running w d h CbDraw Hs Hr Hf)|].
  split; [reflexivity|]. split; [reflexivity|].
  split; [exact (paint_now w1 d1 eq_refl Hd)|].
  assert (Hfr : frames (init d1 w1) = [(nextHandle w, CbDraw)])
    by (rewrite init_frames; reflexivity).
  assert (Hst : store (init d1 w1)
                = Some (set_rAF (Some (nextHandle w)) (schedule d1)))
    by (rewrite init_store; reflexivity).
  split; [exact Hfr|].
  split; [rewrite init_svgChildren; reflexivity|].
  split; [unfold field; rewrite Hst; reflexivity|].
  rewrite (frame_one_draw timestamp _ _ _ Hst Hfr).
  apply draw_clock. reflexivity.
Qed.

Lemma erase_then_paint_restarts_witness :
  exists w1 w2,
    erase running = Ok w1 /\
    frames w1 = [] /\
    svgChildren w1 = 0%nat /\
    paint w1 = Ok w2 /\
    frames w2 = [(nextHandle running, CbDraw)] /\
    svgChildren w2 = List.length (svgData (dataOf running)) /\
    field paths w2 = Some (paths (schedule (dataOf running))) /\
    field startTime (frame 9000 w2) = Some (JS.num 9000) /\
    field elapsedTime (frame 9000 w2) = Some (JS.num (9000 - 9000)).
Proof.
  assert (Hst : store running = Some (dataOf running))
    by (vm_compute; reflexivity).
  assert (Hr : rAF (dataOf running) = Some 2%nat) by (vm_compute; reflexivity).
  assert (Hf : frames running = [(2%nat, CbDraw)]) by (vm_compute; reflexivity).
  assert (Hd : delay (dataOf running) = None) by (vm_compute; reflexivity).
  exact (erase_then_paint_restarts 9000 running (dataOf running) 2%nat
           Hst Hr Hf Hd).
Defined.

Lemma cancel_keeps (h : option handle) (w : world) :
  store (cancelAnimationFrame h w) = store w /\
  nextHandle (cancelAnimationFrame h w) = nextHandle w /\
  timeouts (cancelAnimationFrame h w) = timeouts w /\
  svgChildren (cancelAnimationFrame h w) = svgChildren w.
Proof. destruct h; repeat split. Qed.

Lemma init_timeouts (d : data) (w : world) :
  timeouts (init d w) = timeouts w.
Proof. unfold init. cbn. destruct (onStart d); reflexivity. Qed.

Lemma fireTimeout_init (w : world) (d : data) (ms : Q) (rest : list Q) :
  store w = Some d ->
  timeouts w = ms :: rest ->
  fireTimeout w
  = init d (mkWorld (store w) (frames w) (nextHandle w) rest (svgChildren w)
                    (onStartCalls w) (onCompleteCalls w)).
Proof.
  intros Hs Ht. unfold fireTimeout. now rewrite Ht, Hs.
Qed.

(** X13. [erase] does not reach a delayed [paint]: the timeout [paint] set
    is still pending after [erase], and when it expires the schedule is
    built and the first frame requested as if [erase] had not been
    called. *)
Theorem erase_keeps_delayed_paint (w : world) (d : data) (ms : Q) :
  store w = Some d ->
  delay d = Some ms ->
  timeouts w = [] ->
  exists w1 w2,
    paint w = Ok w1 /\
    frames w1 = frames w /\
    erase w1 = Ok w2 /\
    timeouts w2 = [ms] /\
    timeouts (fireTimeout w2) = [] /\
    frames (fireTimeout w2) = frames w2 ++ [(nextHandle w, CbDraw)] /\
    field paths (fireTimeout w2) = Some (paths (schedule d)) /\
    field totalDuration (fireTimeout w2) = Some (totalDuration (schedule d)).
Proof.
  intros Hs Hd Ht.
  set (d1 := set_elapsedTime JS.null (set_startTime JS.null d)).
  set (w2 := set_svgChildren 0
               (cancelAnimationFrame (rAF d1)
                  (set_store d1 (setTimeout ms w)))).
  exists (setTimeout ms w), w2.
  split; [unfold paint; now rewrite Hs, Hd|].
  split; [reflexivity|].
  split; [unfold erase; cbn [store setTimeout]; now rewrite Hs|].
  destruct (cancel_keeps (rAF d1) (set_store d1 (setTimeout ms w)))
    as [Kst [Knh [Kto Ksv]]].
  assert (Hto : timeouts w2 = [ms]).
  { unfold w2. cbn [timeouts set_svgChildren]. rewrite Kto.
    cbn [timeouts set_store setTimeout]. now rewrite Ht. }
  assert (Hst : store w2 = Some d1).
  { unfold w2. cbn [store set_svgChildren]. now rewrite Kst. }
  assert (Hnh : nextHandle w2 = nextHandle w).
  { unfold w2. cbn [nextHandle set_svgChildren]. now rewrite Knh. }
  split; [exact Hto|].
  rewrite (fireTimeout_init w2 d1 ms [] Hst Hto).
  split; [apply init_timeouts|].
  rewrite init_frames. cbn [frames nextHandle]. rewrite Hnh.
  split; [reflexivity|].
  unfold field. rewrite init_store. split; reflexivity.
Qed.

Lemma erase_keeps_delayed_paint_witness :
  exists w1 w2,
    paint (initialized (mkData [segment 600 100] true 1 false (Some 250)
                               false false [] 0 0 0 None
                               JS.undefined JS.undefined false)) = Ok w1 /\
    frames w1 = [] /\
    erase w1 = Ok w2 /\
    timeouts w2 = [250] /\
    timeouts (fireTimeout w2) = [] /\
    frames (fireTimeout w2) = frames w2 ++ [(0%nat, CbDraw)] /\
    field paths (fireTimeout w2)
    = Some (paths (schedule (mkData [segment 600 100] true 1 false (Some 250)
                                    false false [] 0 0 0 None
                                    JS.undefined JS.undefined false))) /\
    field totalDuration (fireTimeout w2)
    = Some (totalDuration
              (schedule (mkData [segment 600 100] true 1 false (Some 250)
                                false false [] 0 0 0 None
                                JS.undefined JS.undefined false))).
Proof.
  exact (erase_keeps_delayed_paint
           (initialized (mkData [segment 600 100] true 1 false (Some 250)
                                false false [] 0 0 0 None
                                JS.undefined JS.undefined false))
           (mkData [segment 600 100] true 1 false (Some 250)
                   false false [] 0 0 0 None
                   JS.undefined JS.undefined false)
           250 eq_refl eq_refl eq_refl).
Defined.

(** ** Attributes and initialisation *)

(** X14. [getAttributes] uses an entry's own style value exactly when it
    is truthy: a truthy value of the entry is the attribute returned, a
    falsy one (absent, null, the empty string, 0) gives way to the global
    value.  So each attribute is falsy only if both the entry's value and
    the global value are, and an entry cannot set a stroke width or opacity
    of 0 against a non-zero global value; the path string is passed through
    and the fill opacity is always 0. *)
Theorem getAttributes_fallback (data : style) (value : pathStyle) :
  attr_d (getAttributes data value) = sp_path value /\
  attr_fill_opacity (getAttributes data value) = 0 /\
  (attr_not (sp_strokeColor value) = false ->
   attr_stroke (getAttributes data value) = sp_strokeColor value) /\
  (attr_not (sp_strokeOpacity value) = false ->
   attr_stroke_opacity (getAttributes data value) = sp_strokeOpacity value) /\
  (attr_not (sp_strokeWidth value) = false ->
   attr_stroke_width (getAttributes data value) = sp_strokeWidth value) /\
  (attr_not (sp_strokeCap value) = false ->
   attr_stroke_linecap (getAttributes data value) = sp_strokeCap value) /\
  (attr_not (sp_strokeJoin value) = false ->
   attr_stroke_linejoin (getAttributes data value) = sp_strokeJoin value) /\
  (attr_not (sp_strokeColor value) = true ->
   attr_stroke (getAttributes data value) = strokeColor data) /\
  (attr_not (sp_strokeOpacity value) = true ->
   attr_stroke_opacity (getAttributes data value) = strokeOpacity data) /\
  (attr_not (sp_strokeWidth value) = true ->
   attr_stroke_width (getAttributes data value) = strokeWidth data) /\
  (attr_not (sp_strokeCap value) = true ->
   attr_stroke_linecap (getAttributes data value) = strokeCap data) /\
  (attr_not (sp_strokeJoin value) = true ->
   attr_stroke_linejoin (getAttributes data value) = strokeJoin data) /\
  attr_not (attr_stroke (getAttributes data value))
  = attr_not (sp_strokeColor value) && attr_not (strokeColor data) /\
  attr_not (attr_stroke_opacity (getAttributes data value))
  = attr_not (sp_strokeOpacity value) && attr_not (strokeOpacity data) /\
  attr_not (attr_stroke_width (getAttributes data value))
  = attr_not (sp_strokeWidth value) && attr_not (strokeWidth data) /\
  attr_not (attr_stroke_linecap (getAttributes data value))
  = attr_not (sp_strokeCap value) && attr_not (strokeCap data) /\
  attr_not (attr_stroke_linejoin (getAttributes data value))
  = attr_not (sp_strokeJoin value) && attr_not (strokeJoin data) /\
  (forall q, q == 0 ->
             (sp_strokeWidth value = attr_num q ->
              attr_stroke_width (getAttributes data value) = strokeWidth data) /\
             (sp_strokeOpacity value = attr_num q ->
              attr_stroke_opacity (getAttributes data value)
              = strokeOpacity data)).
Proof.
  unfold getAttributes. cbn.
  split; [reflexivity|]. split; [reflexivity|].
  do 10 (split; [intros ->; reflexivity|]).
  split; [destruct (attr_not (sp_strokeColor value)) eqn:E;
          [reflexivity | now rewrite E]|].
  split; [destruct (attr_not (sp_strokeOpacity value)) eqn:E;
          [reflexivity | now rewrite E]|].
  split; [destruct (attr_not (sp_strokeWidth value)) eqn:E;
          [reflexivity | now rewrite E]|].
  split; [destruct (attr_not (sp_strokeCap value)) eqn:E;
          [reflexivity | now rewrite E]|].
  split; [destruct (attr_not (sp_strokeJoin value)) eqn:E;
          [reflexivity | now rewrite E]|].
  intros q Hq. apply Qeq_eq_bool in Hq.
  split; intros ->; cbn; now rewrite Hq.
Qed.

Lemma pluginInit_cached (u : userOptions) (e e' : element) :
  pluginInit u e = Ok e' ->
  el_lazyLine e' = true /\ exists d, store (el_session e') = Some d.
Proof.
  unfold pluginInit. intro H.
  destruct (store (el_session e)) as [d0|] eqn:Hs.
  - injection H as <-. split; [reflexivity|]. exists d0. exact Hs.
  - destruct (target u e) as [key|]; [|discriminate].
    destruct (u_svgData u) as [m|]; [|discriminate].
    destruct (lookup key m) as [sj|]; [|discriminate].
    injection H as <-. split; [reflexivity|]. eexists. reflexivity.
Qed.

(** X15. The plugin's [init] method takes effect once.  On an element it
    has already initialised, a further call, whatever options it is given,
    changes nothing: the cached options, the size, the svg and the session
    stay as they are. *)
Theorem pluginInit_once (u u' : userOptions) (e e' : element) :
  pluginInit u e = Ok e' ->
  pluginInit u' e' = Ok e'.
Proof.
  intro H. destruct (pluginInit_cached u e e' H) as [Hc [d Hs]].
  unfold pluginInit. rewrite Hs. f_equal.
  destruct e'. unfold addClass. simpl in *. now subst.
Qed.

Lemma dropHash_clean (s : string) :
  hasHash s = false -> dropHash s = s.
Proof.
  induction s as [|c s IH]; intro H; simpl in *.
  - reflexivity.
  - apply orb_false_iff in H. destruct H as [Hc Hs].
    rewrite Hc. now rewrite IH.
Qed.

Lemma dropHash_first (a b : string) :
  hasHash a = false ->
  dropHash (a ++ String "#" b) = (a ++ b)%string.
Proof.
  induction a as [|c a IH]; intro H; simpl in *.
  - reflexivity.
  - apply orb_false_iff in H. destruct H as [Hc Ha].
    rewrite Hc. now rewrite IH.
Qed.

(** X16. For an [svgData] mapping whose entries each carry their strokes
    and dimensions: on an element that is not initialised the [init] method
    throws a TypeError exactly when [svgData] is not given, or has no entry
    under the key, or there is no key because the element has no id and no
    non-empty [overrideKey] is given.  The key is the [overrideKey] when it
    is a non-empty string; otherwise it is the id with its first [#]
    removed: what precedes and what follows that [#] is kept, and an id
    without [#] is the key as it is. *)
Theorem pluginInit_throws (u : userOptions) (e : element) :
  store (el_session e) = None ->
  (pluginInit u e = Throw TypeError <->
   ~ exists key m sj,
       target u e = Ok key /\ u_svgData u = Some m /\
       lookup key m = Some sj) /\
  (forall c k, u_overrideKey u = Some (Some (String c k)) ->
               target u e = Ok (String c k)) /\
  ((u_overrideKey u = None \/ u_overrideKey u = Some None \/
    u_overrideKey u = Some (Some EmptyString)) ->
   (el_id e = None -> target u e = Throw TypeError) /\
   (forall i, el_id e = Some i -> target u e = Ok (dropHash i)) /\
   (forall a b, hasHash a = false ->
                el_id e = Some (a ++ String "#" b)%string ->
                target u e = Ok (a ++ b)%string) /\
   (forall i, hasHash i = false -> el_id e = Some i -> target u e = Ok i)).
Proof.
  intro Hs. split; [|split].
  - unfold pluginInit. rewrite Hs.
    destruct (target u e) as [key|[]] eqn:Ht.
    + destruct (u_svgData u) as [m|] eqn:Hm.
      * destruct (lookup key m) as [sj|] eqn:Hl.
        -- split; [discriminate|]. intro H. exfalso. apply H.
           exists key, m, sj. repeat split; assumption.
        -- split; [|reflexivity]. intros _ [k [m' [sj [Hk [Hm' Hl']]]]].
           injection Hk as <-. injection Hm' as <-. congruence.
      * split; [|reflexivity]. intros _ [k [m' [sj [_ [Hm' _]]]]].
        discriminate.
    + split; [|reflexivity]. intros _ [k [m' [sj [Hk _]]]]. discriminate.
  - intros c k Hk. unfold target. now rewrite Hk.
  - intro Hk.
    assert (Hid : forall i, el_id e = Some i -> target u e = Ok (dropHash i)).
    { intros i Hi. unfold target. rewrite Hi.
      destruct Hk as [-> | [-> | ->]]; reflexivity. }
    split; [|split; [exact Hid | split]].
    + intro Hi. unfold target. rewrite Hi.
      destruct Hk as [-> | [-> | ->]]; reflexivity.
    + intros a b Ha Hi. rewrite (Hid _ Hi). f_equal.
      now apply dropHash_first.
    + intros i Hh Hi. rewrite (Hid _ Hi). f_equal.
      now apply dropHash_clean.
Qed.

(** X17. Initialising an element and painting it schedules the strokes
    cached under the element's key: the svg appended takes its view box
    from the subject's dimensions, the element is sized to them unless a
    width or height is given or the element is responsive, and, with no
    delay given, [paint] stores one path per stroke with the scaled
    duration [duration * speedMultiplier], the multiplier being 1 unless
    given, and requests the first frame. *)
Theorem pluginInit_then_paint
        (u : userOptions) (e : element) (key : string)
        (m : list (string * subject)) (sj : subject) :
  store (el_session e) = None ->
  target u e = Ok key ->
  u_svgData u = Some m ->
  lookup key m = Some sj ->
  u_delay u = None ->
  exists e' w,
    pluginInit u e = Ok e' /\
    el_svgs e' = el_svgs e ++ [(sj_width sj, sj_height sj)] /\
    (u_responsive u = None -> u_width u = None -> u_height u = None ->
     el_css e' = Some (sj_width sj, sj_height sj)) /\
    (u_responsive u = Some true -> el_css e' = el_css e) /\
    field svgData (el_session e') = Some (sj_strokepath sj) /\
    paint (el_session e') = Ok w /\
    field (fun d => map duration (paths d)) w
    = Some (map (fun s => sp_duration s * extend 1 (u_speedMultiplier u))
                (sj_strokepath sj)) /\
    frames w = frames (el_session e) ++ [(nextHandle (el_session e), CbDraw)] /\
    svgChildren w = List.length (sj_strokepath sj).
Proof.
  intros Hs Ht Hm Hl Hd.
  unfold pluginInit. rewrite Hs, Ht, Hm, Hl, Hd.
  eexists. eexists. split; [reflexivity|].
  cbn [el_svgs el_css el_session].
  split; [reflexivity|].
  split; [intros -> -> ->; reflexivity|].
  split; [intros ->; reflexivity|].
  split; [reflexivity|].
  split; [apply paint_now; reflexivity|].
  split.
  { unfold field. rewrite init_store. cbn [option_map].
    f_equal. apply schedule_durations. }
  split; [rewrite init_frames; reflexivity|].
  rewrite init_svgChildren. reflexivity.
Qed.

Lemma getAttributes_fallback_witness :
  attr_stroke
    (getAttributes
       (mkStyle (attr_str "#000") (attr_num 1) (attr_num 2)
                (attr_str "round") (attr_str "round"))
       (mkPathStyle "M 0 0 L 10 10" (attr_str "#f00") attr_undefined
                    (attr_num 0) attr_undefined attr_undefined))
  = attr_str "#f00" /\
  attr_stroke_width
    (getAttributes
       (mkStyle (attr_str "#000") (attr_num 1) (attr_num 2)
                (attr_str "round") (attr_str "round"))
       (mkPathStyle "M 0 0 L 10 10" (attr_str "#f00") attr_undefined
                    (attr_num 0) attr_undefined attr_undefined))
  = attr_num 2.
Proof.
  destruct (getAttributes_fallback
              (mkStyle (attr_str "#000") (attr_num 1) (attr_num 2)
                       (attr_str "round") (attr_str "round"))
              (mkPathStyle "M 0 0 L 10 10" (attr_str "#f00") attr_undefined
                           (attr_num 0) attr_undefined attr_undefined))
    as [_ [_ [Hcolor [_ [_ [_ [_ [_ [_ [Hwidth _]]]]]]]]]].
  split; [exact (Hcolor eq_refl) | exact (Hwidth eq_refl)].
Defined.

Lemma pluginInit_once_witness :
  exists e',
    pluginInit pageOptions pageElement = Ok e' /\
    pluginInit otherOptions e' = Ok e'.
Proof.
  eexists. split; [reflexivity|].
  exact (pluginInit_once pageOptions otherOptions pageElement _ eq_refl).
Defined.

Lemma pluginInit_throws_witness :
  target otherOptions pageElement = Ok "svg2"%string /\
  target pageOptions pageElement = Ok "svg1"%string /\
  target pageOptions
         (mkElement (Some "a#b#c"%string) false None [] None
                    (mkWorld None [] 0%nat [] 0%nat 0%nat 0%nat))
  = Ok "ab#c"%string /\
  (pluginInit
     (mkUserOptions None None None None None None None None None None None
                    None None None None None) pageElement
   = Throw TypeError).
Proof.
  destruct (pluginInit_throws otherOptions pageElement eq_refl)
    as [_ [Hkey _]].
  split; [exact (Hkey _ _ eq_refl)|].
  destruct (pluginInit_throws pageOptions pageElement eq_refl)
    as [_ [_ Hid]].
  destruct (Hid (or_introl eq_refl)) as [_ [_ [_ Hclean]]].
  split; [exact (Hclean "svg1"%string eq_refl eq_refl)|].
  destruct (pluginInit_throws pageOptions
              (mkElement (Some "a#b#c"%string) false None [] None
                         (mkWorld None [] 0%nat [] 0%nat 0%nat 0%nat))
              eq_refl) as [_ [_ Hid2]].
  destruct (Hid2 (or_introl eq_refl)) as [_ [_ [Hfirst _]]].
  split; [exact (Hfirst "a"%string "b#c"%string eq_refl eq_refl)|].
  destruct (pluginInit_throws
              (mkUserOptions None None None None None None None None None
                             None None None None None None None)
              pageElement eq_refl) as [[_ Hthrow] _].
  apply Hthrow. intros [key [m [sj [_ [Hm _]]]]]. discriminate.
Defined.

Lemma pluginInit_then_paint_witness :
  exists e' w,
    pluginInit pageOptions pageElement = Ok e' /\
    el_svgs e' = [(200, 190)] /\
    el_css e' = Some (200, 190) /\
    field svgData (el_session e') = Some threeStrokes /\
    paint (el_session e') = Ok w /\
    field (fun d => map duration (paths d)) w
    = Some [600 * 1; 600 * 1; 600 * 1] /\
    frames w = [(0%nat, CbDraw)] /\
    svgChildren w = 3%nat.
Proof.
  destruct (pluginInit_then_paint pageOptions pageElement "svg1"
              [("svg1"%string, mkSubject threeStrokes 200 190)]
              (mkSubject threeStrokes 200 190)
              eq_refl eq_refl eq_refl eq_refl eq_refl)
    as [e' [w [Hi [Hsvg [Hcss [_ [Hd [Hp [Hdur [Hf Hc]]]]]]]]]].
  exists e', w.
  split; [exact Hi|]. split; [exact Hsvg|].
  split; [exact (Hcss eq_refl eq_refl eq_refl)|].
  split; [exact Hd|]. split; [exact Hp|]. split; [exact Hdur|].
  split; [exact Hf | exact Hc].
Defined.

(** ** Two boundary failures *)

(** C5 at its failing input.  The session [running] (elapsed time 300) is
    paused and resumed; after the frame that runs [adjustStartTime] (5000
    ms) [pauseResume] is called again.  The playback is then paused at
    elapsed time 300, but [data.rAF] still names the frame cancelled by the
    first pause and the [draw] request made by [adjustStartTime] stays
    pending: frames keep drawing (elapsed time 316 at 5016 ms), and after
    [pauseResume] resumes, the next frame (5232 ms) computes the elapsed
    time 532 and two [draw] requests are pending. *)
Lemma second_pause_does_not_freeze :
  field paused pausedAgain = Some true /\
  field elapsedTime pausedAgain = Some (JS.num 300) /\
  field rAF pausedAgain = Some (Some 2%nat) /\
  frames pausedAgain = [(4%nat, CbDraw)] /\
  field paused (frame 5016 pausedAgain) = Some true /\
  field elapsedTime (frame 5016 pausedAgain) = Some (JS.num 316) /\
  field elapsedTime resumedAgain = Some (JS.num 532) /\
  frames resumedAgain = [(8%nat, CbDraw); (9%nat, CbDraw)].
Proof.
  repeat split; vm_compute; reflexivity.
Qed.

(** C7 at its failing input.  For the hidden stroke of 600 ms the frame
    step shows 599/600 of it at the elapsed time 599 and all of it at 601,
    but at 600 exactly it leaves the stroke as it was, hidden: the visible
    fraction there is 0, below its value at 599. *)
Lemma fraction_drops_at_duration :
  visibleFraction (drawPath true false 599 hiddenStroke) == 599 # 600 /\
  drawPath true false 600 hiddenStroke = hiddenStroke /\
  visibleFraction (drawPath true false 600 hiddenStroke) == 0 /\
  visibleFraction (drawPath true false 601 hiddenStroke) == 1 /\
  ~ (visibleFraction (drawPath true false 599 hiddenStroke)
     <= visibleFraction (drawPath true false 600 hiddenStroke)) /\
  ~ (visibleFraction (drawPath false false 599 hiddenStroke)
     <= visibleFraction (drawPath false false 600 hiddenStroke)).
Proof.
  split; [vm_compute; reflexivity|].
  split; [vm_compute; reflexivity|].
  split; [vm_compute; reflexivity|].
  split; [vm_compute; reflexivity|].
  split; intro H; vm_compute in H; apply H; reflexivity.
Qed.
